(** * WebApiTester: the configuration tree of [Unit.ts] and its dispatcher

    A shallow embedding of [src/types/Unit.ts] (classes [HTTPClient],
    [TestEngine], [WebSite], [Module], [Api]) and of the interfaces of
    [IUnit.ts].  JavaScript objects live in a store indexed by references,
    so that two fields holding the same object alias each other as they do
    in the program.  The synchronous part of [TestEngine.start] runs in a
    state monad over that store; the promise handlers attached to each
    request run later, against the store as it is then, and record what
    they call. *)

From stdpp Require Import base option list gmap strings.
From Stdlib Require Import ZArith.

Local Open Scope Z_scope.
Local Open Scope string_scope.
Local Open Scope list_scope.

(** ** Values *)

(** A reference to a JavaScript object. *)
Abbreviation loc := positive (only parsing).

(** [enum HTTPMethod] of [IUnit.ts]. *)
Inductive HTTPMethod := GET | POST | PUT | PATCH | HEAD | DELETE.

(** The values [data: any] ranges over, as far as [||] tells them apart. *)
Inductive JsValue :=
| JUndefined
| JNull
| JBool (b : bool)
| JNum (z : Z)
| JStr (s : string)
| JObj (l : loc).

(** JavaScript truthiness, the test behind [x || d] and [if (x)]. *)
Definition truthy (v : JsValue) : bool :=
  match v with
  | JUndefined | JNull => false
  | JBool b => b
  | JNum z => negb (Z.eqb z 0)
  | JStr s => negb (String.eqb s "")
  | JObj _ => true
  end.

(** The part of an [AxiosResponse] the program looks at. *)
Record AxiosResponse := { status : Z; rdata : JsValue }.

(** What a handler is called with: the response of a request that
    completed, or whatever the transport rejected with. *)
Inductive Arg :=
| AResponse (r : AxiosResponse)
| AError (e : JsValue).

(** Function values.  A closure supplied by the caller is told apart by
    an identifier and returns what [body] says; it is assumed to return
    normally and to leave the configuration tree alone.  The two closures
    the constructors create themselves are spelled out. *)
Inductive Fn :=
| FnUser (id : nat) (body : Arg → JsValue)
| FnNoop                (* (_) => { } *)
| FnStatus200.          (* (r) => r.status === 200 *)

Definition apply (f : Fn) (a : Arg) : JsValue :=
  match f with
  | FnUser _ body => body a
  | FnNoop => JUndefined
  | FnStatus200 =>
      match a with
      | AResponse r => JBool (Z.eqb (status r) 200)
      | AError _ => JBool false
      end
  end.

(** ** The object store *)

(** The fields of [interface IUnit], shared by the four classes.  The
    collections are objects of their own, held by reference. *)
Record IUnit := {
  name : string;
  description : string;
  path : string;
  headers : loc;
  querys : loc;
  success_callbacks : loc;
  fail_callbacks : loc;
  error_callback : Fn
}.

Inductive Obj :=
| OHeaders (hs : gmap string string)       (* an AxiosHeaders instance *)
| OMap (m : gmap string string)            (* a Map<string, string> *)
| OCallbacks (fs : list Fn)                (* an array of callbacks *)
| ONodes (ns : list loc)                   (* an array of child nodes *)
| OPlain                                   (* the object literal {} *)
| OTestEngine (u : IUnit) (webSites : loc)
| OWebSite (u : IUnit) (modules : loc)
| OModule (u : IUnit) (apis : loc)
| OApi (u : IUnit) (data : JsValue) (method : HTTPMethod) (verify : Fn).

Abbreviation Heap := (gmap positive Obj).

(** What [axios.request] is handed by [HTTPClient.do]: the field values of
    the [IApi] it was given, the collections as they are at that moment. *)
Record Request := {
  rq_method : HTTPMethod;
  rq_url : string;
  rq_headers : gmap string string;
  rq_params : gmap string string;
  rq_data : JsValue
}.

(** A request in flight, with the four objects the [then] and [catch]
    closures of [start] have captured. *)
Record Pending := {
  p_request : Request;
  p_api : loc;
  p_module : loc;
  p_webSite : loc;
  p_engine : loc
}.

(** What the program was seen to call, oldest first: the members of a
    node the dispatcher invokes, and the registered callbacks [notify] and
    [fail] run. *)
Inductive Event :=
| EVerify (node : loc) (f : Fn) (r : AxiosResponse)     (* node.verify(r) *)
| ENotify (node : loc) (r : AxiosResponse)              (* node.notify(r) *)
| EFail (node : loc) (r : AxiosResponse)                (* node.fail(r) *)
| EErrorCallback (node : loc) (f : Fn) (e : JsValue)    (* node.error_callback(e) *)
| ECallback (f : Fn) (r : AxiosResponse).               (* callback(r) *)

(** The state of a run: the store, the requests handed to the transport
    so far and the calls made so far, both oldest first. *)
Record State := { heap : Heap; issued : list Pending; log : list Event }.

(** ** A state monad with failure

    Failure stands for a dereference the type checker of TypeScript rules
    out (a reference that is not there or holds an object of another
    class); no operation of the program fails otherwise. *)
Definition M (A : Type) : Type := State → option (A * State).

#[global] Instance M_ret : MRet M := λ A (a : A) s, Some (a, s).

#[global] Instance M_bind : MBind M := λ A B (k : A → M B) (m : M A) s,
  match m s with
  | Some (a, s') => k a s'
  | None => None
  end.

Definition failM {A} : M A := λ _, None.

Definition lift {A} (o : option A) : M A :=
  match o with Some a => mret a | None => failM end.

(** [new C(...)]: a reference not in use yet. *)
Definition alloc (o : Obj) : M loc :=
  λ s, let l := fresh (dom (heap s)) in
       Some (l, {| heap := <[l := o]> (heap s); issued := issued s; log := log s |}).

Definition read (l : loc) : M Obj :=
  λ s, match heap s !! l with Some o => Some (o, s) | None => None end.

Definition write (l : loc) (o : Obj) : M unit :=
  λ s, Some (tt, {| heap := <[l := o]> (heap s); issued := issued s; log := log s |}).

Definition issue (p : Pending) : M unit :=
  λ s, Some (tt, {| heap := heap s; issued := issued s ++ [p]; log := log s |}).

Definition emit (e : Event) : M unit :=
  λ s, Some (tt, {| heap := heap s; issued := issued s; log := log s ++ [e] |}).

(** [xs.forEach(f)] *)
Fixpoint forEach {A} (f : A → M unit) (xs : list A) : M unit :=
  match xs with
  | [] => mret tt
  | x :: xs' => f x;; forEach f xs'
  end.

(** Typed reads. *)
Definition unit_of (o : Obj) : option IUnit :=
  match o with
  | OTestEngine u _ | OWebSite u _ | OModule u _ | OApi u _ _ _ => Some u
  | _ => None
  end.

Definition read_unit (l : loc) : M IUnit := o ← read l; lift (unit_of o).

Definition read_headers (l : loc) : M (gmap string string) :=
  o ← read l; match o with OHeaders hs => mret hs | _ => failM end.

Definition read_map (l : loc) : M (gmap string string) :=
  o ← read l; match o with OMap m => mret m | _ => failM end.

Definition read_callbacks (l : loc) : M (list Fn) :=
  o ← read l; match o with OCallbacks fs => mret fs | _ => failM end.

Definition read_nodes (l : loc) : M (list loc) :=
  o ← read l; match o with ONodes ns => mret ns | _ => failM end.

(** [xs.map(f)] *)
Fixpoint mapArr {A B} (f : A → M B) (xs : list A) : M (list B) :=
  match xs with
  | [] => mret []
  | x :: xs' => y ← f x; ys ← mapArr f xs'; mret (y :: ys)
  end.

(** ** The collaborators from axios and the language

    [AxiosHeaders] belongs to axios and is modelled by its documented
    contract: a store of header values by name; [set(name, value)]
    replaces the value under a name; [concat(target)] merges the receiver
    and its argument into a new instance, the argument's values winning,
    and returns it, while the receiver stays as it was.  Names are kept
    as they are given. *)
Definition AxiosHeaders_new : M loc := alloc (OHeaders ∅).

Definition AxiosHeaders_set (this : loc) (key value : string) : M unit :=
  hs ← read_headers this; write this (OHeaders (<[key := value]> hs)).

Definition AxiosHeaders_concat (this target : loc) : M loc :=
  first ← read_headers this;
  t ← read_headers target;
  alloc (OHeaders (t ∪ first)).

(** [Map<string, string>] *)
Definition Map_new : M loc := alloc (OMap ∅).

Definition Map_set (this : loc) (key value : string) : M unit :=
  m ← read_map this; write this (OMap (<[key := value]> m)).

Definition Map_forEach (this : loc) (f : string → string → M unit) : M unit :=
  m ← read_map this; forEach (λ kv, f kv.2 kv.1) (map_to_list m).

(** [s || d] on strings: the empty string is falsy. *)
Definition str_or (o : option string) (d : string) : string :=
  match o with
  | Some s => if String.eqb s "" then d else s
  | None => d
  end.

(** [x || new C()] on an optional object. *)
Definition obj_or (o : option loc) (d : M loc) : M loc :=
  match o with Some l => mret l | None => d end.

(** ** Constructors *)

(** The optional properties the four constructors have in common. *)
Record Options := {
  opt_headers : option loc;
  opt_querys : option loc;
  opt_success_callbacks : option loc;
  opt_fail_callbacks : option loc;
  opt_error_callback : option Fn;
  opt_name : option string;
  opt_description : option string
}.

(** The assignments all four constructors make, in their order, up to
    [error_callback]; [name] and [description] come last in the source and
    allocate nothing. *)
Definition init_unit (p : string) (o : Options) (dname ddesc : string) : M IUnit :=
  hs ← obj_or (opt_headers o) AxiosHeaders_new;
  qs ← obj_or (opt_querys o) Map_new;
  sc ← obj_or (opt_success_callbacks o) (alloc (OCallbacks []));
  fc ← obj_or (opt_fail_callbacks o) (alloc (OCallbacks []));
  mret {| name := str_or (opt_name o) dname;
          description := str_or (opt_description o) ddesc;
          path := p;
          headers := hs;
          querys := qs;
          success_callbacks := sc;
          fail_callbacks := fc;
          error_callback := default FnNoop (opt_error_callback o) |}.

(** [new TestEngine({headers, querys, ..., webSites, name, description})]:
    the pattern has no [path]; the field is set to the empty string. *)
Definition TestEngine_new (o : Options) (webSites : option loc) : M loc :=
  u ← init_unit "" o "TestEngine" "TestEngine";
  ws ← obj_or webSites (alloc (ONodes []));
  alloc (OTestEngine u ws).

(** [new WebSite({path, ..., modules, name, description})] *)
Definition WebSite_new (p : string) (o : Options) (modules : option loc) : M loc :=
  u ← init_unit p o "" "";
  ms ← obj_or modules (alloc (ONodes []));
  alloc (OWebSite u ms).

(** [new Module({path, ..., apis, name, description})] *)
Definition Module_new (p : string) (o : Options) (apis : option loc) : M loc :=
  u ← init_unit p o "" "";
  xs ← obj_or apis (alloc (ONodes []));
  alloc (OModule u xs).

(** [new Api({path, method, ..., verify, data, name, description})];
    an absent [data] is [undefined]. *)
Definition Api_new (p : string) (method : HTTPMethod) (o : Options)
    (verify : option Fn) (data : JsValue) : M loc :=
  u ← init_unit p o "" "";
  d ← (if truthy data then mret data else l ← alloc OPlain; mret (JObj l));
  alloc (OApi u d method (default FnStatus200 verify)).

(** ** Methods of [IUnit]

    [addSuccessCallback], [addFailCallback], [addHeader], [addQuery],
    [notify] and [fail] have the same body in the four classes; each is
    given once, for a receiver of any of them. *)
Definition addSuccessCallback (this : loc) (callback : Fn) : M unit :=
  u ← read_unit this;
  fs ← read_callbacks (success_callbacks u);
  write (success_callbacks u) (OCallbacks (fs ++ [callback])).

Definition addFailCallback (this : loc) (callback : Fn) : M unit :=
  u ← read_unit this;
  fs ← read_callbacks (fail_callbacks u);
  write (fail_callbacks u) (OCallbacks (fs ++ [callback])).

Definition addHeader (this : loc) (key value : string) : M unit :=
  u ← read_unit this; AxiosHeaders_set (headers u) key value.

Definition addQuery (this : loc) (key value : string) : M unit :=
  u ← read_unit this; Map_set (querys u) key value.

(** The loop of [notify] and [fail]: call each callback in array order and
    push what it returns. *)
Definition run_callbacks (fs : list Fn) (value : AxiosResponse) : M (list JsValue) :=
  mapArr (λ callback, emit (ECallback callback value);;
                      mret (apply callback (AResponse value))) fs.

Definition notify (this : loc) (value : AxiosResponse) : M (list JsValue) :=
  emit (ENotify this value);;
  u ← read_unit this;
  fs ← read_callbacks (success_callbacks u);
  run_callbacks fs value.

Definition fail (this : loc) (value : AxiosResponse) : M (list JsValue) :=
  emit (EFail this value);;
  u ← read_unit this;
  fs ← read_callbacks (fail_callbacks u);
  run_callbacks fs value.

(** [this.error_callback(error)] *)
Definition call_error_callback (this : loc) (error : JsValue) : M JsValue :=
  u ← read_unit this;
  emit (EErrorCallback this (error_callback u) error);;
  mret (apply (error_callback u) (AError error)).

(** Pushing onto a child array: [addWebSites], [addModules], [addApis]. *)
Definition push_nodes (arr : loc) (xs : list loc) : M unit :=
  forEach (λ x, ns ← read_nodes arr; write arr (ONodes (ns ++ [x]))) xs.

Definition read_engine (l : loc) : M (IUnit * loc) :=
  o ← read l; match o with OTestEngine u ws => mret (u, ws) | _ => failM end.

Definition read_site (l : loc) : M (IUnit * loc) :=
  o ← read l; match o with OWebSite u ms => mret (u, ms) | _ => failM end.

Definition read_module (l : loc) : M (IUnit * loc) :=
  o ← read l; match o with OModule u xs => mret (u, xs) | _ => failM end.

Definition read_api (l : loc) : M (IUnit * JsValue * HTTPMethod * Fn) :=
  o ← read l; match o with OApi u d m v => mret (u, d, m, v) | _ => failM end.

Definition addWebSites (this : loc) (webSites : list loc) : M unit :=
  e ← read_engine this; push_nodes e.2 webSites.

Definition addModules (this : loc) (modules : list loc) : M unit :=
  s ← read_site this; push_nodes s.2 modules.

Definition addApis (this : loc) (apis : list loc) : M unit :=
  m ← read_module this; push_nodes m.2 apis.

(** ** [Api] *)

(** [api.verify(response)] *)
Definition call_verify (this : loc) (response : AxiosResponse) : M JsValue :=
  a ← read_api this;
  emit (EVerify this a.2 response);;
  mret (apply a.2 (AResponse response)).

(** [clone]: a new [Api] built from the fields of [this]. *)
Definition clone (this : loc) : M loc :=
  '(u, d, m, v) ← read_api this;
  Api_new (path u) m
    {| opt_headers := Some (headers u);
       opt_querys := Some (querys u);
       opt_success_callbacks := Some (success_callbacks u);
       opt_fail_callbacks := Some (fail_callbacks u);
       opt_error_callback := Some (error_callback u);
       opt_name := Some (name u);
       opt_description := Some (description u) |}
    (Some v) d.

(** Assignments to fields of an [Api]: [capi.headers = ...],
    [capi.path = ...], [capi.querys = ...]. *)
Definition with_headers (l : loc) (u : IUnit) : IUnit :=
  {| name := name u; description := description u; path := path u;
     headers := l; querys := querys u;
     success_callbacks := success_callbacks u;
     fail_callbacks := fail_callbacks u; error_callback := error_callback u |}.

Definition with_path (p : string) (u : IUnit) : IUnit :=
  {| name := name u; description := description u; path := p;
     headers := headers u; querys := querys u;
     success_callbacks := success_callbacks u;
     fail_callbacks := fail_callbacks u; error_callback := error_callback u |}.

Definition with_querys (l : loc) (u : IUnit) : IUnit :=
  {| name := name u; description := description u; path := path u;
     headers := headers u; querys := l;
     success_callbacks := success_callbacks u;
     fail_callbacks := fail_callbacks u; error_callback := error_callback u |}.

Definition assign (this : loc) (f : IUnit → IUnit) : M unit :=
  '(u, d, m, v) ← read_api this; write this (OApi (f u) d m v).

(** ** [HTTPClient] *)

(** [do]: the request [axios.request] receives. *)
Definition HTTPClient_do (api : loc) : M Request :=
  '(u, d, m, _) ← read_api api;
  hs ← read_headers (headers u);
  ps ← read_map (querys u);
  mret {| rq_method := m; rq_url := path u;
          rq_headers := hs; rq_params := ps; rq_data := d |}.

(** ** [TestEngine.start] *)

(** The body of the innermost loop, up to the call of the client.  The
    [then] and [catch] closures are kept with the request as the four
    references they capture. *)
Definition dispatch (this webSite module api : loc) : M unit :=
  capi ← clone api;
  header ← AxiosHeaders_new;
  params ← Map_new;
  forEach (λ level, u ← read_unit level;
                    _ ← AxiosHeaders_concat header (headers u);
                    mret tt)
          [this; webSite; module; api];;
  assign capi (with_headers header);;
  ps ← mapArr (λ level, u ← read_unit level; mret (path u))
              [this; webSite; module; api];
  assign capi (with_path (String.concat "" ps));;
  forEach (λ level, u ← read_unit level;
                    Map_forEach (querys u) (λ value key, Map_set params key value))
          [this; webSite; module; api];;
  assign capi (with_querys params);;
  rq ← HTTPClient_do capi;
  issue {| p_request := rq; p_api := api; p_module := module;
           p_webSite := webSite; p_engine := this |}.

Definition start (this : loc) : M unit :=
  e ← read_engine this;
  webSites ← read_nodes e.2;
  forEach (λ webSite,
    s ← read_site webSite;
    modules ← read_nodes s.2;
    forEach (λ module,
      m ← read_module module;
      apis ← read_nodes m.2;
      forEach (λ api, dispatch this webSite module api) apis) modules) webSites.

(** The [then] closure of a request.  With callbacks that return
    normally it never throws, so that of [then(f).catch(g)] exactly one
    closure runs: [f] when the request completes, [g] when it is
    rejected. *)
Definition on_fulfilled (p : Pending) (response : AxiosResponse) : M unit :=
  ok ← call_verify (p_api p) response;
  if truthy ok then
    notify (p_api p) response;;
    notify (p_module p) response;;
    notify (p_webSite p) response;;
    notify (p_engine p) response;;
    mret tt
  else
    fail (p_api p) response;;
    fail (p_module p) response;;
    fail (p_webSite p) response;;
    fail (p_engine p) response;;
    mret tt.

(** The [catch] closure of a request. *)
Definition on_rejected (p : Pending) (error : JsValue) : M unit :=
  call_error_callback (p_api p) error;;
  call_error_callback (p_module p) error;;
  call_error_callback (p_webSite p) error;;
  call_error_callback (p_engine p) error;;
  mret tt.

(** How a request ends: [axios.request] completes with a response,
    whatever its status, or is rejected. *)
Inductive Outcome :=
| Fulfilled (response : AxiosResponse)
| Rejected (error : JsValue).

Definition settle (p : Pending) (o : Outcome) : M unit :=
  match o with
  | Fulfilled response => on_fulfilled p response
  | Rejected error => on_rejected p error
  end.

(** The requests that end, in the order in which they end: each handler
    runs to its end before the next one starts. *)
Definition complete (ends : list (Pending * Outcome)) : M unit :=
  forEach (λ po, settle po.1 po.2) ends.

(** ** Observations on a store

    What the statements below read off a store: the shape a node must have
    for the program to run on it, and the values the four levels carry. *)
Definition unit_at (h : Heap) (l : loc) : option IUnit := h !! l ≫= unit_of.

Definition headers_at (h : Heap) (l : loc) : option (gmap string string) :=
  match h !! l with Some (OHeaders hs) => Some hs | _ => None end.

Definition map_at (h : Heap) (l : loc) : option (gmap string string) :=
  match h !! l with Some (OMap m) => Some m | _ => None end.

Definition callbacks_at (h : Heap) (l : loc) : option (list Fn) :=
  match h !! l with Some (OCallbacks fs) => Some fs | _ => None end.

Definition nodes_at (h : Heap) (l : loc) : option (list loc) :=
  match h !! l with Some (ONodes ns) => Some ns | _ => None end.

(** The collections of a node are there and of the right class. *)
Definition wf_unit (h : Heap) (u : IUnit) : bool :=
  bool_decide (is_Some (headers_at h (headers u)))
  && bool_decide (is_Some (map_at h (querys u)))
  && bool_decide (is_Some (callbacks_at h (success_callbacks u)))
  && bool_decide (is_Some (callbacks_at h (fail_callbacks u))).

Definition wf_node (h : Heap) (l : loc) : bool :=
  match unit_at h l with Some u => wf_unit h u | None => false end.

(** An [Api] as the constructor leaves it: [data || {}] is never falsy. *)
Definition wf_api (h : Heap) (l : loc) : bool :=
  match h !! l with
  | Some (OApi u d _ _) => wf_unit h u && truthy d
  | _ => false
  end.

Definition wf_module (h : Heap) (l : loc) : bool :=
  match h !! l with
  | Some (OModule u xs) =>
      wf_unit h u &&
      match nodes_at h xs with Some apis => forallb (wf_api h) apis | None => false end
  | _ => false
  end.

Definition wf_webSite (h : Heap) (l : loc) : bool :=
  match h !! l with
  | Some (OWebSite u xs) =>
      wf_unit h u &&
      match nodes_at h xs with Some ms => forallb (wf_module h) ms | None => false end
  | _ => false
  end.

Definition wf_engine (h : Heap) (l : loc) : bool :=
  match h !! l with
  | Some (OTestEngine u xs) =>
      wf_unit h u &&
      match nodes_at h xs with Some ws => forallb (wf_webSite h) ws | None => false end
  | _ => false
  end.

(** The children of a node, and the paths from an engine to its leaves in
    the order [start] visits them. *)
Definition children (h : Heap) (l : loc) : list loc :=
  match h !! l with
  | Some (OTestEngine _ xs) | Some (OWebSite _ xs) | Some (OModule _ xs) =>
      default [] (nodes_at h xs)
  | _ => []
  end.

Definition paths (h : Heap) (this : loc) : list (loc * loc * loc) :=
  webSite ← children h this;
  module ← children h webSite;
  api ← children h module;
  [(webSite, module, api)].

Definition path_of (h : Heap) (l : loc) : string :=
  from_option path "" (unit_at h l).

Definition headers_of (h : Heap) (l : loc) : gmap string string :=
  default ∅ (unit_at h l ≫= λ u, headers_at h (headers u)).

Definition querys_of (h : Heap) (l : loc) : gmap string string :=
  default ∅ (unit_at h l ≫= λ u, map_at h (querys u)).

Definition success_of (h : Heap) (l : loc) : list Fn :=
  default [] (unit_at h l ≫= λ u, callbacks_at h (success_callbacks u)).

Definition fail_of (h : Heap) (l : loc) : list Fn :=
  default [] (unit_at h l ≫= λ u, callbacks_at h (fail_callbacks u)).

Definition error_callback_of (h : Heap) (l : loc) : Fn :=
  from_option error_callback FnNoop (unit_at h l).

Definition data_of (h : Heap) (l : loc) : JsValue :=
  match h !! l with Some (OApi _ d _ _) => d | _ => JUndefined end.

Definition method_of (h : Heap) (l : loc) : HTTPMethod :=
  match h !! l with Some (OApi _ _ m _) => m | _ => GET end.

Definition verify_of (h : Heap) (l : loc) : Fn :=
  match h !! l with Some (OApi _ _ _ v) => v | _ => FnStatus200 end.

(** ** What a run is compared with

    The states, requests and records of calls the statements below
    name. *)

(** The state with another store. *)
Definition with_heap (h : Heap) (s : State) : State :=
  {| heap := h; issued := issued s; log := log s |}.


(** Setting the entries of a list one after the other. *)
Definition set_all (acc : gmap string string) (kvs : list (string * string)) :
    gmap string string :=
  foldl (λ a kv, <[kv.1 := kv.2]> a) acc kvs.

(** The query maps of the levels laid over [acc], first level first. *)
Definition merge_querys (h : Heap) (acc : gmap string string) (levels : list loc) :
    gmap string string :=
  foldl (λ a level, querys_of h level ∪ a) acc levels.

(** The request [start] hands to the client for one path of the tree, as
    read off the store the loop body starts from: the method and body of
    the endpoint, the four path fragments joined, the query maps of the
    four levels merged, and no header, the accumulator of the header loop
    being left empty. *)
Definition request_of (h : Heap) (this webSite module api : loc) : Request :=
  {| rq_method := method_of h api;
     rq_url := String.concat "" (path_of h <$> [this; webSite; module; api]);
     rq_headers := ∅;
     rq_params := merge_querys h ∅ [this; webSite; module; api];
     rq_data := data_of h api |}.

Definition pending_of (h : Heap) (this webSite module api : loc) : Pending :=
  {| p_request := request_of h this webSite module api;
     p_api := api; p_module := module; p_webSite := webSite; p_engine := this |}.

(** The requests [start] issues, in its order, read off the store it
    starts from. *)
Definition dispatches (h : Heap) (this : loc) : list Pending :=
  webSite ← children h this;
  module ← children h webSite;
  api ← children h module;
  [pending_of h this webSite module api].

(** The four levels of a request, leaf first. *)
Definition levels_up (p : Pending) : list loc :=
  [p_api p; p_module p; p_webSite p; p_engine p].

(** What [notify], [fail] and [error_callback] of a node add to the record. *)
Definition notify_events (h : Heap) (node : loc) (r : AxiosResponse) : list Event :=
  ENotify node r :: ((λ f, ECallback f r) <$> success_of h node).

Definition fail_events (h : Heap) (node : loc) (r : AxiosResponse) : list Event :=
  EFail node r :: ((λ f, ECallback f r) <$> fail_of h node).

Definition error_events (h : Heap) (node : loc) (e : JsValue) : list Event :=
  [EErrorCallback node (error_callback_of h node) e].

(** What settling a request adds to the record of calls. *)
Definition fanout (h : Heap) (p : Pending) (o : Outcome) : list Event :=
  match o with
  | Fulfilled r =>
      EVerify (p_api p) (verify_of h (p_api p)) r ::
      (if truthy (apply (verify_of h (p_api p)) (AResponse r))
       then level ← levels_up p; notify_events h level r
       else level ← levels_up p; fail_events h level r)
  | Rejected e => level ← levels_up p; error_events h level e
  end.


(** The value the nearest level to the leaf gives a key. *)
Definition nearest (qa qm qs qe : gmap string string) (k : string) : option string :=
  match qa !! k with
  | Some v => Some v
  | None =>
      match qm !! k with
      | Some v => Some v
      | None => match qs !! k with Some v => Some v | None => qe !! k end
      end
  end.

(** An optional object of the configuration [o] ended up as [l]: the
    object given, or else a new one holding [d]. *)
Definition defaulted (s s' : State) (o : option loc) (l : loc) (d : Obj) : Prop :=
  match o with
  | Some l0 => l = l0
  | None => heap s !! l = None ∧ heap s' !! l = Some d
  end.

(** What the options common to the four classes become. *)
Definition unit_defaults (s s' : State) (o : Options) (dname ddesc : string)
    (u : IUnit) : Prop :=
  defaulted s s' (opt_headers o) (headers u) (OHeaders ∅)
  ∧ defaulted s s' (opt_querys o) (querys u) (OMap ∅)
  ∧ defaulted s s' (opt_success_callbacks o) (success_callbacks u) (OCallbacks [])
  ∧ defaulted s s' (opt_fail_callbacks o) (fail_callbacks u) (OCallbacks [])
  ∧ error_callback u = default FnNoop (opt_error_callback o)
  ∧ name u = str_or (opt_name o) dname
  ∧ description u = str_or (opt_description o) ddesc.

(** What [data || {}] evaluates to. *)
Definition data_defaulted (s s' : State) (data d : JsValue) : Prop :=
  if truthy data then d = data
  else ∃ l, d = JObj l ∧ heap s !! l = None ∧ heap s' !! l = Some OPlain.

(** ** Shapes

    What the add operations leave alone: an object with the content of a
    collection of strings or callbacks taken out.  Nodes, child arrays
    and bodies are kept whole. *)
Definition skeleton (o : Obj) : Obj :=
  match o with
  | OHeaders _ => OHeaders ∅
  | OMap _ => OMap ∅
  | OCallbacks _ => OCallbacks []
  | _ => o
  end.

(** Two stores with the same objects up to the content of such
    collections. *)
Definition same_shape (h h' : Heap) : Prop :=
  ∀ l, skeleton <$> (h !! l) = skeleton <$> (h' !! l).

(** The collections a configuration passes are there and of the right
    class. *)
Definition is_headers (h : Heap) (l : loc) : bool :=
  bool_decide (is_Some (headers_at h l)).

Definition is_map (h : Heap) (l : loc) : bool :=
  bool_decide (is_Some (map_at h l)).

Definition is_callbacks (h : Heap) (l : loc) : bool :=
  bool_decide (is_Some (callbacks_at h l)).

Definition opt_ok (ok : Heap → loc → bool) (h : Heap) (o : option loc) : bool :=
  match o with Some l => ok h l | None => true end.

Definition wf_options (h : Heap) (o : Options) : bool :=
  opt_ok is_headers h (opt_headers o)
  && opt_ok is_map h (opt_querys o)
  && opt_ok is_callbacks h (opt_success_callbacks o)
  && opt_ok is_callbacks h (opt_fail_callbacks o).

(** The child array a configuration passes holds well-formed children. *)
Definition wf_children (wf : Heap → loc → bool) (h : Heap) (c : option loc) : bool :=
  match c with
  | Some xs =>
      match nodes_at h xs with Some ns => forallb (wf h) ns | None => false end
  | None => true
  end.


(** * A configuration to run on

    Two sites with a module and an endpoint each.  The engine, whose
    [path] field is assigned after construction, and the first endpoint
    both set the header [H] and the query parameter [k]; every level of
    the first path has a success and a fail callback. *)
Definition initial : State := {| heap := ∅; issued := []; log := [] |}.

Definition no_options : Options :=
  {| opt_headers := None; opt_querys := None;
     opt_success_callbacks := None; opt_fail_callbacks := None;
     opt_error_callback := None; opt_name := None; opt_description := None |}.

Definition quiet (id : nat) : Fn := FnUser id (λ _, JUndefined).

Definition example_tree : M (list loc) :=
  apiA ← Api_new "/e" GET no_options None JUndefined;
  addHeader apiA "H" "b";;
  addQuery apiA "k" "leaf";;
  addSuccessCallback apiA (quiet 1);;
  addFailCallback apiA (quiet 2);;
  apisA ← alloc (ONodes [apiA]);
  modA ← Module_new "" no_options (Some apisA);
  addSuccessCallback modA (quiet 3);;
  addFailCallback modA (quiet 4);;
  addQuery modA "k" "module";;
  addQuery modA "m" "module";;
  modsA ← alloc (ONodes [modA]);
  siteA ← WebSite_new "/s" no_options (Some modsA);
  addSuccessCallback siteA (quiet 5);;
  addFailCallback siteA (quiet 6);;
  apiB ← Api_new "/other" POST no_options (Some (FnUser 9 (λ _, JBool true)))
           (JStr "payload");
  modB ← Module_new "/v2" no_options None;
  addApis modB [apiB];;
  siteB ← WebSite_new "/t" no_options None;
  addModules siteB [modB];;
  engine ← TestEngine_new no_options None;
  e ← read_engine engine;
  write engine (OTestEngine (with_path "https://x" e.1) e.2);;
  addWebSites engine [siteA; siteB];;
  addHeader engine "H" "a";;
  addQuery engine "k" "root";;
  addQuery engine "r" "root";;
  addSuccessCallback engine (quiet 7);;
  addFailCallback engine (quiet 8);;
  mret [engine; siteA; modA; apiA; siteB; modB; apiB].

Definition example_state : State :=
  Eval vm_compute in from_option snd initial (example_tree initial).

Definition example_nodes : list loc :=
  Eval vm_compute in from_option fst [] (example_tree initial).

Definition example_engine : loc := Eval vm_compute in default 1%positive (example_nodes !! 0%nat).
Definition example_siteA : loc := Eval vm_compute in default 1%positive (example_nodes !! 1%nat).
Definition example_modA : loc := Eval vm_compute in default 1%positive (example_nodes !! 2%nat).
Definition example_apiA : loc := Eval vm_compute in default 1%positive (example_nodes !! 3%nat).
Definition example_siteB : loc := Eval vm_compute in default 1%positive (example_nodes !! 4%nat).
Definition example_modB : loc := Eval vm_compute in default 1%positive (example_nodes !! 5%nat).
Definition example_apiB : loc := Eval vm_compute in default 1%positive (example_nodes !! 6%nat).

(** A store with one header set, and a configuration that passes it. *)
Definition shared_state : State :=
  Eval vm_compute in
    from_option snd initial
      ((l ← AxiosHeaders_new; AxiosHeaders_set l "Accept" "text/html") initial).

Definition shared_headers : loc :=
  Eval vm_compute in from_option fst 1%positive (AxiosHeaders_new initial).

Definition shared_options : Options :=
  {| opt_headers := Some shared_headers; opt_querys := None;
     opt_success_callbacks := None; opt_fail_callbacks := None;
     opt_error_callback := None; opt_name := None; opt_description := None |}.


(** The request of the first path of the configuration. *)
Definition example_pending : Pending :=
  pending_of (heap example_state) example_engine example_siteA example_modA
    example_apiA.

(** * Reasoning about runs *)

(** ** Steps of the monad *)

Lemma bind_eq {A B} (m : M A) (k : A → M B) s a s1 :
  m s = Some (a, s1) → (m ≫= k) s = k a s1.
Proof. intros E. unfold mbind, M_bind. by rewrite E. Qed.

Lemma bind_assoc {A B C} (m : M A) (k1 : A → M B) (k2 : B → M C) s :
  ((m ≫= k1) ≫= k2) s = (m ≫= λ a, k1 a ≫= k2) s.
Proof. unfold mbind, M_bind. by destruct (m s) as [[a s1]|]. Qed.

Lemma ret_bind {A B} (a : A) (k : A → M B) s : (mret a ≫= k) s = k a s.
Proof. reflexivity. Qed.

(** Run the first action of the goal with the equation [E] that gives its
    result. *)
Ltac mstep E :=
  rewrite ?bind_assoc; first [rewrite (bind_eq _ _ _ _ _ E) | rewrite E];
  cbv beta iota.

Lemma alloc_eq o s :
  alloc o s =
  Some (fresh (dom (heap s)), with_heap (<[fresh (dom (heap s)) := o]> (heap s)) s).
Proof. reflexivity. Qed.

Lemma fresh_None (h : Heap) : h !! fresh (dom h) = None.
Proof. apply not_elem_of_dom, is_fresh. Qed.

Lemma alloc_subseteq (h : Heap) o : h ⊆ <[fresh (dom h) := o]> h.
Proof. apply insert_subseteq, fresh_None. Qed.

Lemma read_eq l o s : heap s !! l = Some o → read l s = Some (o, s).
Proof. intros E. unfold read. by rewrite E. Qed.

Lemma write_eq l o s : write l o s = Some (tt, with_heap (<[l := o]> (heap s)) s).
Proof. reflexivity. Qed.

Lemma read_unit_eq l u s : unit_at (heap s) l = Some u → read_unit l s = Some (u, s).
Proof.
  unfold unit_at, read_unit. intros E.
  destruct (heap s !! l) as [o|] eqn:El; [|done]. simpl in E.
  rewrite (bind_eq _ _ _ _ _ (read_eq _ _ _ El)). by rewrite E.
Qed.

Lemma read_headers_eq l hs s :
  headers_at (heap s) l = Some hs → read_headers l s = Some (hs, s).
Proof.
  unfold headers_at, read_headers. intros E.
  destruct (heap s !! l) as [[]|] eqn:El; try done.
  rewrite (bind_eq _ _ _ _ _ (read_eq _ _ _ El)). by simplify_eq.
Qed.

Lemma read_map_eq l m s :
  map_at (heap s) l = Some m → read_map l s = Some (m, s).
Proof.
  unfold map_at, read_map. intros E.
  destruct (heap s !! l) as [[]|] eqn:El; try done.
  rewrite (bind_eq _ _ _ _ _ (read_eq _ _ _ El)). by simplify_eq.
Qed.

Lemma read_callbacks_eq l fs s :
  callbacks_at (heap s) l = Some fs → read_callbacks l s = Some (fs, s).
Proof.
  unfold callbacks_at, read_callbacks. intros E.
  destruct (heap s !! l) as [[]|] eqn:El; try done.
  rewrite (bind_eq _ _ _ _ _ (read_eq _ _ _ El)). by simplify_eq.
Qed.

Lemma read_nodes_eq l ns s :
  nodes_at (heap s) l = Some ns → read_nodes l s = Some (ns, s).
Proof.
  unfold nodes_at, read_nodes. intros E.
  destruct (heap s !! l) as [[]|] eqn:El; try done.
  rewrite (bind_eq _ _ _ _ _ (read_eq _ _ _ El)). by simplify_eq.
Qed.

Lemma read_api_eq l u d m v s :
  heap s !! l = Some (OApi u d m v) → read_api l s = Some ((u, d, m, v), s).
Proof. intros El. unfold read_api. by rewrite (bind_eq _ _ _ _ _ (read_eq _ _ _ El)). Qed.


(** ** Stores that grow

    Observations made on a store hold on every store that contains it. *)
Section Grow.
Context (h h' : Heap) (Hsub : h ⊆ h').

Lemma unit_at_weaken l u : unit_at h l = Some u → unit_at h' l = Some u.
Proof.
  unfold unit_at. destruct (h !! l) as [o|] eqn:E; [|done].
  by rewrite (lookup_weaken _ _ _ _ E Hsub).
Qed.

Lemma headers_at_weaken l hs : headers_at h l = Some hs → headers_at h' l = Some hs.
Proof.
  unfold headers_at. destruct (h !! l) as [o|] eqn:E; [|done].
  by rewrite (lookup_weaken _ _ _ _ E Hsub).
Qed.

Lemma map_at_weaken l m : map_at h l = Some m → map_at h' l = Some m.
Proof.
  unfold map_at. destruct (h !! l) as [o|] eqn:E; [|done].
  by rewrite (lookup_weaken _ _ _ _ E Hsub).
Qed.

Lemma callbacks_at_weaken l fs :
  callbacks_at h l = Some fs → callbacks_at h' l = Some fs.
Proof.
  unfold callbacks_at. destruct (h !! l) as [o|] eqn:E; [|done].
  by rewrite (lookup_weaken _ _ _ _ E Hsub).
Qed.

Lemma nodes_at_weaken l ns : nodes_at h l = Some ns → nodes_at h' l = Some ns.
Proof.
  unfold nodes_at. destruct (h !! l) as [o|] eqn:E; [|done].
  by rewrite (lookup_weaken _ _ _ _ E Hsub).
Qed.
End Grow.

(** A write outside a store leaves what was observed on it. *)
Lemma insert_fresh_subseteq (h0 h : Heap) l o :
  h0 ⊆ h → h0 !! l = None → h0 ⊆ <[l := o]> h.
Proof. intros. by apply insert_subseteq_r. Qed.

(** ** The collaborators *)

Lemma str_or_same s : str_or (Some s) "" = s.
Proof. unfold str_or. by destruct (String.eqb_spec s "") as [->|]. Qed.

Lemma AxiosHeaders_set_eq this key value hs s :
  headers_at (heap s) this = Some hs →
  AxiosHeaders_set this key value s =
  Some (tt, with_heap (<[this := OHeaders (<[key := value]> hs)]> (heap s)) s).
Proof.
  intros E. unfold AxiosHeaders_set.
  by rewrite (bind_eq _ _ _ _ _ (read_headers_eq _ _ _ E)).
Qed.

(** [concat] allocates its result and writes nowhere else. *)
Lemma AxiosHeaders_concat_eq this target first t s :
  headers_at (heap s) this = Some first →
  headers_at (heap s) target = Some t →
  AxiosHeaders_concat this target s =
  Some (fresh (dom (heap s)),
        with_heap (<[fresh (dom (heap s)) := OHeaders (t ∪ first)]> (heap s)) s).
Proof.
  intros E1 E2. unfold AxiosHeaders_concat.
  rewrite (bind_eq _ _ _ _ _ (read_headers_eq _ _ _ E1)).
  by rewrite (bind_eq _ _ _ _ _ (read_headers_eq _ _ _ E2)).
Qed.

Lemma Map_set_eq this key value m s :
  map_at (heap s) this = Some m →
  Map_set this key value s =
  Some (tt, with_heap (<[this := OMap (<[key := value]> m)]> (heap s)) s).
Proof.
  intros E. unfold Map_set.
  by rewrite (bind_eq _ _ _ _ _ (read_map_eq _ _ _ E)).
Qed.

Lemma map_at_insert (h : Heap) l m : map_at (<[l := OMap m]> h) l = Some m.
Proof. unfold map_at. by rewrite lookup_insert_eq. Qed.


Lemma set_all_union kvs acc :
  NoDup kvs.*1 → set_all acc kvs = list_to_map kvs ∪ acc.
Proof.
  unfold set_all. revert acc. induction kvs as [|[k v] kvs IH]; intros acc Hnd.
  - simpl. by rewrite (left_id_L ∅ (∪)).
  - simpl in *. apply NoDup_cons in Hnd as [Hk Hnd].
    rewrite IH by done. rewrite <- insert_union_l.
    by rewrite insert_union_r by (by apply not_elem_of_list_to_map_1).
Qed.

Lemma set_all_map_to_list (m acc : gmap string string) :
  set_all acc (map_to_list m) = m ∪ acc.
Proof.
  rewrite set_all_union by apply NoDup_fst_map_to_list.
  by rewrite list_to_map_to_list.
Qed.

(** The loop [m.forEach((value, key) => params.set(key, value))]. *)
Lemma forEach_Map_set params kvs acc s :
  map_at (heap s) params = Some acc →
  ∃ s', forEach (λ kv : string * string, Map_set params kv.1 kv.2) kvs s = Some (tt, s')
        ∧ heap s' = <[params := OMap (set_all acc kvs)]> (heap s)
        ∧ issued s' = issued s ∧ log s' = log s.
Proof.
  revert acc s. induction kvs as [|[k v] kvs IH]; intros acc s E.
  - exists s. simpl. split_and!; try done.
    unfold map_at in E. destruct (heap s !! params) as [[]|] eqn:El; try done.
    simplify_eq. by rewrite insert_id.
  - simpl.
    rewrite (bind_eq _ _ _ _ _ (Map_set_eq _ k v _ _ E)).
    destruct (IH (<[k := v]> acc)
                (with_heap (<[params := OMap (<[k := v]> acc)]> (heap s)) s))
      as (s' & Hrun & Hh & Hi & Hl).
    { simpl. apply map_at_insert. }
    exists s'. split_and!; try done.
    rewrite Hh. simpl. by rewrite insert_insert_eq.
Qed.

Lemma Map_forEach_set this params q acc s :
  map_at (heap s) this = Some q →
  map_at (heap s) params = Some acc →
  ∃ s', Map_forEach this (λ value key, Map_set params key value) s = Some (tt, s')
        ∧ heap s' = <[params := OMap (q ∪ acc)]> (heap s)
        ∧ issued s' = issued s ∧ log s' = log s.
Proof.
  intros Eq Ep. unfold Map_forEach.
  rewrite (bind_eq _ _ _ _ _ (read_map_eq _ _ _ Eq)).
  rewrite <- set_all_map_to_list. by apply forEach_Map_set.
Qed.

(** ** [clone] and the loops of [dispatch] *)

Lemma clone_eq this u d m v s :
  heap s !! this = Some (OApi u d m v) →
  truthy d = true →
  clone this s =
  Some (fresh (dom (heap s)),
        with_heap (<[fresh (dom (heap s)) := OApi u d m v]> (heap s)) s).
Proof.
  intros E Hd. unfold clone.
  rewrite (bind_eq _ _ _ _ _ (read_api_eq _ _ _ _ _ _ E)).
  unfold Api_new, init_unit, obj_or, mbind, M_bind, mret, M_ret. simpl.
  rewrite Hd. fold (str_or (Some (name u)) "") (str_or (Some (description u)) "").
  rewrite !str_or_same. by destruct u.
Qed.

Lemma assign_eq this f u d m v s :
  heap s !! this = Some (OApi u d m v) →
  assign this f s = Some (tt, with_heap (<[this := OApi (f u) d m v]> (heap s)) s).
Proof.
  intros E. unfold assign.
  by rewrite (bind_eq _ _ _ _ _ (read_api_eq _ _ _ _ _ _ E)).
Qed.

(** The header loop of [start]: every [concat] makes an object of its own
    and the result is dropped, so nothing that was in the store changes. *)
Lemma header_loop header levels : ∀ s,
  is_Some (headers_at (heap s) header) →
  Forall (λ level, ∃ u, unit_at (heap s) level = Some u
                        ∧ is_Some (headers_at (heap s) (headers u))) levels →
  ∃ s', forEach (λ level, u ← read_unit level;
                          _ ← AxiosHeaders_concat header (headers u);
                          mret tt) levels s = Some (tt, s')
        ∧ heap s ⊆ heap s' ∧ issued s' = issued s ∧ log s' = log s.
Proof.
  induction levels as [|level levels IH]; intros s [f Hf] Hall.
  - by exists s.
  - apply Forall_cons in Hall as [(u & Hu & [t Ht]) Hall]. simpl.
    mstep (read_unit_eq _ _ _ Hu).
    mstep (AxiosHeaders_concat_eq _ _ _ _ _ Hf Ht).
    rewrite ret_bind.
    set (s1 := with_heap _ s).
    assert (heap s ⊆ heap s1) as Hsub by apply alloc_subseteq.
    destruct (IH s1) as (s' & Hrun & Hh & Hi & Hl).
    { exists f. by eapply headers_at_weaken. }
    { eapply Forall_impl; [exact Hall|]. intros l (u' & Hu' & [t' Ht']).
      exists u'. split; [by eapply unit_at_weaken|].
      exists t'. by eapply headers_at_weaken. }
    exists s'. split_and!; try done. by etrans.
Qed.

(** [[this, webSite, module, api].map(level => level.path)] *)
Lemma path_loop (h0 : Heap) levels s :
  h0 ⊆ heap s →
  Forall (λ level, is_Some (unit_at h0 level)) levels →
  mapArr (λ level, u ← read_unit level; mret (path u)) levels s
  = Some (path_of h0 <$> levels, s).
Proof.
  intros Hsub Hall. induction Hall as [|level levels [u Hu] _ IH]; [done|].
  simpl.
  mstep (read_unit_eq _ _ _ (unit_at_weaken _ _ Hsub _ _ Hu)).
  rewrite ret_bind. mstep IH.
  unfold path_of. by rewrite Hu.
Qed.

(** The query loop of [start], run on a map [params] that none of the
    levels holds. *)
Lemma query_loop (h0 : Heap) params levels : ∀ s acc,
  h0 ⊆ heap s →
  h0 !! params = None →
  map_at (heap s) params = Some acc →
  Forall (λ level, ∃ u, unit_at h0 level = Some u
                        ∧ is_Some (map_at h0 (querys u))) levels →
  ∃ s', forEach (λ level, u ← read_unit level;
                          Map_forEach (querys u)
                            (λ value key, Map_set params key value)) levels s
        = Some (tt, s')
        ∧ heap s' = <[params := OMap (merge_querys h0 acc levels)]> (heap s)
        ∧ issued s' = issued s ∧ log s' = log s.
Proof.
  induction levels as [|level levels IH]; intros s acc Hsub Hfresh Hp Hall.
  - exists s. split_and!; try done. simpl.
    unfold map_at in Hp. destruct (heap s !! params) as [[]|] eqn:El; try done.
    simplify_eq. by rewrite insert_id.
  - apply Forall_cons in Hall as [(u & Hu & [q Hq]) Hall]. simpl.
    mstep (read_unit_eq _ _ _ (unit_at_weaken _ _ Hsub _ _ Hu)).
    destruct (Map_forEach_set (querys u) params q acc s)
      as (s1 & Hrun1 & Hh1 & Hi1 & Hl1); [by eapply map_at_weaken|done|].
    mstep Hrun1.
    destruct (IH s1 (q ∪ acc)) as (s' & Hrun & Hh & Hi & Hl); try done.
    { rewrite Hh1. by apply insert_fresh_subseteq. }
    { rewrite Hh1. apply map_at_insert. }
    exists s'. split_and!; try congruence.
    rewrite Hh, Hh1, insert_insert_eq. do 2 f_equal.
    unfold merge_querys at 2. simpl. unfold querys_of at 2.
    rewrite Hu. simpl. by rewrite Hq.
Qed.

(** ** Well-formed nodes *)

Lemma wf_unit_inv h u :
  wf_unit h u = true →
  is_Some (headers_at h (headers u)) ∧ is_Some (map_at h (querys u))
  ∧ is_Some (callbacks_at h (success_callbacks u))
  ∧ is_Some (callbacks_at h (fail_callbacks u)).
Proof.
  unfold wf_unit. rewrite !andb_true_iff, !bool_decide_eq_true. tauto.
Qed.

Lemma wf_node_inv h l :
  wf_node h l = true → ∃ u, unit_at h l = Some u ∧ wf_unit h u = true.
Proof. unfold wf_node. destruct (unit_at h l) as [u|]; [eauto|done]. Qed.

Lemma wf_api_inv h l :
  wf_api h l = true →
  ∃ u d m v, h !! l = Some (OApi u d m v) ∧ wf_unit h u = true ∧ truthy d = true.
Proof.
  unfold wf_api. destruct (h !! l) as [[]|]; try done.
  rewrite andb_true_iff. intros [Hu Hd]. by eexists _, _, _, _.
Qed.

Lemma wf_api_node h l : wf_api h l = true → wf_node h l = true.
Proof.
  intros (u & d & m & v & E & Hu & _)%wf_api_inv.
  unfold wf_node, unit_at. by rewrite E.
Qed.

Lemma wf_unit_weaken (h h' : Heap) u :
  h ⊆ h' → wf_unit h u = true → wf_unit h' u = true.
Proof.
  intros Hsub (Hh & Hq & Hs & Hf)%wf_unit_inv. unfold wf_unit.
  rewrite !andb_true_iff, !bool_decide_eq_true.
  destruct Hh as [x Hh], Hq as [y Hq], Hs as [z Hs], Hf as [w Hf].
  rewrite (headers_at_weaken _ _ Hsub _ _ Hh), (map_at_weaken _ _ Hsub _ _ Hq),
    (callbacks_at_weaken _ _ Hsub _ _ Hs), (callbacks_at_weaken _ _ Hsub _ _ Hf).
  eauto.
Qed.

Lemma wf_node_weaken (h h' : Heap) l :
  h ⊆ h' → wf_node h l = true → wf_node h' l = true.
Proof.
  intros Hsub (u & Hu & Hwf)%wf_node_inv. unfold wf_node.
  rewrite (unit_at_weaken _ _ Hsub _ _ Hu). by eapply wf_unit_weaken.
Qed.

Lemma wf_api_weaken (h h' : Heap) l :
  h ⊆ h' → wf_api h l = true → wf_api h' l = true.
Proof.
  intros Hsub (u & d & m & v & E & Hu & Hd)%wf_api_inv. unfold wf_api.
  rewrite (lookup_weaken _ _ _ _ E Hsub), Hd, andb_true_r.
  by eapply wf_unit_weaken.
Qed.

(** ** One pass of the innermost loop *)

(** On well-formed levels the body of the loop succeeds, issues the one
    request [pending_of] describes, calls nothing, and only adds objects
    to the store: the clone, the header accumulator, the query
    accumulator and the four results of [concat]. *)
Lemma dispatch_spec this webSite module api s :
  wf_node (heap s) this = true →
  wf_node (heap s) webSite = true →
  wf_node (heap s) module = true →
  wf_api (heap s) api = true →
  ∃ s', dispatch this webSite module api s = Some (tt, s')
        ∧ heap s ⊆ heap s'
        ∧ issued s' = issued s ++ [pending_of (heap s) this webSite module api]
        ∧ log s' = log s.
Proof.
  intros He Hs Hm Ha.
  assert (Forall (λ level, ∃ u, unit_at (heap s) level = Some u
                                ∧ wf_unit (heap s) u = true)
                 [this; webSite; module; api]) as Hlevels.
  { repeat apply Forall_cons_2; [..|apply Forall_nil_2];
      apply wf_node_inv; first [done | by apply wf_api_node]. }
  destruct (wf_api_inv _ _ Ha) as (ua & d & m & v & Eapi & _ & Hd).
  set (h := heap s) in *.
  unfold dispatch.
  (* the clone and the two fresh collections *)
  mstep (clone_eq _ _ _ _ _ _ Eapi Hd). fold h.
  set (capi := fresh (dom h)).
  set (s1 := with_heap _ s).
  unfold AxiosHeaders_new. mstep (alloc_eq (OHeaders ∅) s1).
  set (header := fresh (dom (heap s1))).
  set (s2 := with_heap _ s1).
  unfold Map_new. mstep (alloc_eq (OMap ∅) s2).
  set (params := fresh (dom (heap s2))).
  set (s3 := with_heap _ s2).
  assert (h !! capi = None) as Fc by apply fresh_None.
  assert (heap s1 !! header = None) as Fh by apply fresh_None.
  assert (heap s2 !! params = None) as Fp by apply fresh_None.
  assert (h ⊆ heap s1) as S1 by apply alloc_subseteq.
  assert (heap s1 ⊆ heap s2) as S2 by apply alloc_subseteq.
  assert (heap s2 ⊆ heap s3) as S3 by apply alloc_subseteq.
  assert (heap s1 !! capi = Some (OApi ua d m v)) as C1
    by apply lookup_insert_eq.
  assert (heap s2 !! header = Some (OHeaders ∅)) as H2
    by apply lookup_insert_eq.
  assert (heap s3 !! params = Some (OMap ∅)) as P3
    by apply lookup_insert_eq.
  assert (capi ≠ header) as Nch by congruence.
  assert (capi ≠ params) as Ncp.
  { intros E. rewrite <- E in Fp.
    by rewrite (lookup_weaken _ _ _ _ C1 S2) in Fp. }
  assert (header ≠ params) as Nhp by congruence.
  assert (h !! header = None) as Fh0 by (by eapply lookup_weaken_None).
  assert (h !! params = None) as Fp0.
  { eapply lookup_weaken_None; [exact Fp|]. by etrans. }
  assert (h ⊆ heap s3) as S03
    by exact (transitivity S1 (transitivity S2 S3)).
  assert (issued s3 = issued s) as I3 by done.
  assert (log s3 = log s) as L3 by done.
  clearbody capi header params s1 s2 s3.
  (* the header loop *)
  destruct (header_loop header [this; webSite; module; api] s3)
    as (s4 & Hrun4 & S4 & I4 & L4).
  { unfold headers_at. rewrite (lookup_weaken _ _ _ _ H2 S3). eauto. }
  { eapply Forall_impl; [exact Hlevels|]. intros l (u & Hu & Hwf).
    exists u. split; [by eapply unit_at_weaken|].
    apply wf_unit_inv in Hwf as ([x Hx] & _). exists x.
    by eapply headers_at_weaken. }
  mstep Hrun4.
  assert (heap s4 !! capi = Some (OApi ua d m v)) as C4.
  { eapply lookup_weaken; [exact C1|].
    exact (transitivity S2 (transitivity S3 S4)). }
  mstep (assign_eq _ (with_headers header) _ _ _ _ _ C4).
  set (s5 := with_heap _ s4).
  assert (h ⊆ heap s5) as S05.
  { apply insert_fresh_subseteq; [by etrans|done]. }
  (* the path *)
  rewrite ?bind_assoc.
  rewrite (bind_eq _ _ _ _ _ (path_loop h [this; webSite; module; api] s5 S05
    (Forall_impl _ _ _ Hlevels (λ l '(ex_intro _ u (conj Hu _)), mk_is_Some _ _ Hu)))).
  mstep (assign_eq _ (with_path (String.concat ""
           (path_of h <$> [this; webSite; module; api]))) _ _ _ _ s5
           (lookup_insert_eq _ _ _)).
  set (s6 := with_heap _ s5).
  assert (h ⊆ heap s6) as S06 by (by apply insert_fresh_subseteq).
  (* the query loop *)
  destruct (query_loop h params [this; webSite; module; api] s6 ∅ S06 Fp0)
    as (s7 & Hrun7 & H7 & I7 & L7).
  { unfold map_at. simpl. rewrite !lookup_insert_ne by done.
    by rewrite (lookup_weaken _ _ _ _ P3 S4). }
  { eapply Forall_impl; [exact Hlevels|]. intros l (u & Hu & Hwf).
    exists u. split; [done|]. by apply wf_unit_inv in Hwf as (_ & Hq & _). }
  mstep Hrun7.
  assert (heap s7 !! capi = Some (OApi
            (with_path (String.concat "" (path_of h <$> [this; webSite; module; api]))
               (with_headers header ua)) d m v)) as C7.
  { rewrite H7, lookup_insert_ne by done. apply lookup_insert_eq. }
  mstep (assign_eq _ (with_querys params) _ _ _ _ _ C7).
  set (s8 := with_heap _ s7).
  (* the client *)
  unfold HTTPClient_do.
  mstep (read_api_eq capi _ _ _ _ s8 (lookup_insert_eq _ _ _)).
  simpl headers. simpl querys. simpl path.
  assert (headers_at (heap s8) header = Some ∅) as H8.
  { unfold headers_at. simpl. rewrite H7. simpl.
    rewrite !lookup_insert_ne by done.
    by rewrite (lookup_weaken _ _ _ _ H2 (transitivity S3 S4)). }
  mstep (read_headers_eq _ _ _ H8).
  assert (map_at (heap s8) params
          = Some (merge_querys h ∅ [this; webSite; module; api])) as P8.
  { unfold map_at. simpl. rewrite H7.
    rewrite lookup_insert_ne by done. by rewrite lookup_insert_eq. }
  mstep (read_map_eq _ _ _ P8).
  rewrite ret_bind.
  eexists. split; [reflexivity|]. simpl. split_and!.
  - apply insert_fresh_subseteq; [|done]. rewrite H7.
    by apply insert_fresh_subseteq.
  - rewrite I7. simpl. rewrite I4, I3. f_equal.
    unfold pending_of, request_of, method_of, data_of. by rewrite Eapi.
  - rewrite L7. simpl. by rewrite L4.
Qed.

(** ** The loops of [start] *)

(** A request read off a larger store is the same request. *)
Lemma path_of_weaken (h h' : Heap) l :
  h ⊆ h' → is_Some (unit_at h l) → path_of h' l = path_of h l.
Proof.
  intros Hsub [u Hu]. unfold path_of.
  by rewrite (unit_at_weaken _ _ Hsub _ _ Hu), Hu.
Qed.

Lemma querys_of_weaken (h h' : Heap) l :
  h ⊆ h' → wf_node h l = true → querys_of h' l = querys_of h l.
Proof.
  intros Hsub (u & Hu & (_ & [q Hq] & _)%wf_unit_inv)%wf_node_inv.
  unfold querys_of. rewrite (unit_at_weaken _ _ Hsub _ _ Hu), Hu. simpl.
  by rewrite (map_at_weaken _ _ Hsub _ _ Hq), Hq.
Qed.

Lemma pending_of_weaken (h h' : Heap) this webSite module api :
  h ⊆ h' →
  wf_node h this = true → wf_node h webSite = true →
  wf_node h module = true → wf_api h api = true →
  pending_of h' this webSite module api = pending_of h this webSite module api.
Proof.
  intros Hsub He Hs Hm Ha.
  pose proof (wf_api_node _ _ Ha) as Ha'.
  destruct (wf_api_inv _ _ Ha) as (u & d & m & v & E & _).
  unfold pending_of, request_of, merge_querys, method_of, data_of. simpl.
  rewrite (lookup_weaken _ _ _ _ E Hsub), E.
  rewrite !(querys_of_weaken h h') by done.
  rewrite !(path_of_weaken h h'); try done;
    match goal with
    | H : wf_node _ ?l = true |- is_Some (unit_at _ ?l) =>
        apply wf_node_inv in H as (? & -> & _); eauto
    end.
Qed.

(** A loop whose passes each extend the store and issue requests fixed
    beforehand. *)
Lemma forEach_issue {A} (f : A → M unit) (g : A → list Pending)
    (P : A → Prop) (h0 : Heap) xs :
  (∀ x s, P x → h0 ⊆ heap s →
     ∃ s', f x s = Some (tt, s') ∧ heap s ⊆ heap s'
           ∧ issued s' = issued s ++ g x ∧ log s' = log s) →
  Forall P xs →
  ∀ s, h0 ⊆ heap s →
    ∃ s', forEach f xs s = Some (tt, s') ∧ heap s ⊆ heap s'
          ∧ issued s' = issued s ++ (xs ≫= g) ∧ log s' = log s.
Proof.
  intros Hf Hall. induction Hall as [|x xs Hx _ IH]; intros s Hsub.
  - exists s. simpl. by rewrite app_nil_r.
  - destruct (Hf x s Hx Hsub) as (s1 & Hrun1 & S1 & I1 & L1).
    destruct (IH s1) as (s' & Hrun & S' & I' & L'); [by etrans|].
    exists s'. simpl. mstep Hrun1. split_and!; try done.
    + by etrans.
    + by rewrite I', I1, <- app_assoc.
    + congruence.
Qed.

Lemma forallb_Forall {A} (p : A → bool) xs :
  forallb p xs = true → Forall (λ x, p x = true) xs.
Proof.
  intros H. apply Forall_forall. intros x Hx.
  by eapply forallb_forall; [exact H|apply list_elem_of_In].
Qed.

Lemma wf_module_inv h l :
  wf_module h l = true →
  ∃ u xs, h !! l = Some (OModule u xs) ∧ wf_unit h u = true
          ∧ nodes_at h xs = Some (children h l)
          ∧ Forall (λ a, wf_api h a = true) (children h l).
Proof.
  unfold wf_module, children. destruct (h !! l) as [[]|]; try done.
  rewrite andb_true_iff. intros [Hu Hc].
  destruct (nodes_at h apis) as [ns|] eqn:En; [|done].
  eexists _, _. split_and!; simpl; try done. by apply forallb_Forall.
Qed.

Lemma wf_webSite_inv h l :
  wf_webSite h l = true →
  ∃ u xs, h !! l = Some (OWebSite u xs) ∧ wf_unit h u = true
          ∧ nodes_at h xs = Some (children h l)
          ∧ Forall (λ m, wf_module h m = true) (children h l).
Proof.
  unfold wf_webSite, children. destruct (h !! l) as [[]|]; try done.
  rewrite andb_true_iff. intros [Hu Hc].
  destruct (nodes_at h modules) as [ns|] eqn:En; [|done].
  eexists _, _. split_and!; simpl; try done. by apply forallb_Forall.
Qed.

Lemma wf_engine_inv h l :
  wf_engine h l = true →
  ∃ u xs, h !! l = Some (OTestEngine u xs) ∧ wf_unit h u = true
          ∧ nodes_at h xs = Some (children h l)
          ∧ Forall (λ w, wf_webSite h w = true) (children h l).
Proof.
  unfold wf_engine, children. destruct (h !! l) as [[]|]; try done.
  rewrite andb_true_iff. intros [Hu Hc].
  destruct (nodes_at h webSites) as [ns|] eqn:En; [|done].
  eexists _, _. split_and!; simpl; try done. by apply forallb_Forall.
Qed.

Lemma wf_module_node h l : wf_module h l = true → wf_node h l = true.
Proof.
  intros (u & xs & E & Hu & _)%wf_module_inv.
  unfold wf_node, unit_at. by rewrite E.
Qed.

Lemma wf_webSite_node h l : wf_webSite h l = true → wf_node h l = true.
Proof.
  intros (u & xs & E & Hu & _)%wf_webSite_inv.
  unfold wf_node, unit_at. by rewrite E.
Qed.

Lemma wf_engine_node h l : wf_engine h l = true → wf_node h l = true.
Proof.
  intros (u & xs & E & Hu & _)%wf_engine_inv.
  unfold wf_node, unit_at. by rewrite E.
Qed.

(** [start] on a well-formed tree: it succeeds, issues the requests of
    [dispatches] in order, calls nothing and only adds to the store. *)
Lemma start_spec this s :
  wf_engine (heap s) this = true →
  ∃ s', start this s = Some (tt, s')
        ∧ heap s ⊆ heap s'
        ∧ issued s' = issued s ++ dispatches (heap s) this
        ∧ log s' = log s.
Proof.
  intros Hwf. set (h := heap s).
  pose proof (wf_engine_node _ _ Hwf) as He.
  destruct (wf_engine_inv _ _ Hwf) as (ue & ws & Ee & _ & Ews & Hws).
  unfold start, read_engine.
  mstep (read_eq _ _ _ Ee). rewrite ret_bind. simpl.
  mstep (read_nodes_eq _ _ _ Ews).
  eapply (forEach_issue _ _ (λ w, wf_webSite h w = true) h); [|done|done].
  intros webSite s1 Hwf1 Hsub1.
  pose proof (wf_webSite_node _ _ Hwf1) as Hs.
  destruct (wf_webSite_inv _ _ Hwf1) as (us & ms & Es & _ & Ems & Hms).
  unfold read_site.
  mstep (read_eq _ _ _ (lookup_weaken _ _ _ _ Es Hsub1)). rewrite ret_bind. simpl.
  mstep (read_nodes_eq _ _ _ (nodes_at_weaken _ _ Hsub1 _ _ Ems)).
  eapply (forEach_issue _ _ (λ m, wf_module h m = true) h); [|done|done].
  intros module s2 Hwf2 Hsub2.
  pose proof (wf_module_node _ _ Hwf2) as Hm.
  destruct (wf_module_inv _ _ Hwf2) as (um & xs & Em & _ & Exs & Hxs).
  unfold read_module.
  mstep (read_eq _ _ _ (lookup_weaken _ _ _ _ Em Hsub2)). rewrite ret_bind. simpl.
  mstep (read_nodes_eq _ _ _ (nodes_at_weaken _ _ Hsub2 _ _ Exs)).
  eapply (forEach_issue _ _ (λ a, wf_api h a = true) h); [|done|done].
  intros api s3 Ha Hsub3.
  rewrite <- (pending_of_weaken h (heap s3)) by done.
  apply dispatch_spec; first [by eapply wf_node_weaken | by eapply wf_api_weaken].
Qed.

(** ** The handlers *)









(** ** The constructors *)

Lemma defaulted_weaken s s1 s2 s' o l d :
  heap s ⊆ heap s1 → heap s2 ⊆ heap s' →
  defaulted s1 s2 o l d → defaulted s s' o l d.
Proof.
  intros S1 S2. destruct o as [l0|]; [done|]. intros [Hn Hd]. split.
  - by eapply lookup_weaken_None.
  - by eapply lookup_weaken.
Qed.

Lemma obj_or_spec o d s :
  ∃ l s', obj_or o (alloc d) s = Some (l, s')
          ∧ heap s ⊆ heap s' ∧ issued s' = issued s ∧ log s' = log s
          ∧ defaulted s s' o l d.
Proof.
  destruct o as [l0|]; simpl.
  - by exists l0, s.
  - eexists _, _. split; [apply alloc_eq|]. simpl. split_and!; try done.
    + apply alloc_subseteq.
    + apply fresh_None.
    + apply lookup_insert_eq.
Qed.

Lemma unit_defaults_weaken s s1 s2 s' o dn dd u :
  heap s ⊆ heap s1 → heap s2 ⊆ heap s' →
  unit_defaults s1 s2 o dn dd u → unit_defaults s s' o dn dd u.
Proof.
  intros S1 S2 (H1 & H2 & H3 & H4 & H5). unfold unit_defaults.
  split_and!; try tauto; by eapply defaulted_weaken.
Qed.

Lemma init_unit_spec p o dn dd s :
  ∃ u s', init_unit p o dn dd s = Some (u, s')
          ∧ heap s ⊆ heap s' ∧ issued s' = issued s ∧ log s' = log s
          ∧ path u = p ∧ unit_defaults s s' o dn dd u.
Proof.
  unfold init_unit, AxiosHeaders_new, Map_new.
  destruct (obj_or_spec (opt_headers o) (OHeaders ∅) s)
    as (hs & s1 & E1 & S1 & I1 & L1 & D1). mstep E1.
  destruct (obj_or_spec (opt_querys o) (OMap ∅) s1)
    as (qs & s2 & E2 & S2 & I2 & L2 & D2). mstep E2.
  destruct (obj_or_spec (opt_success_callbacks o) (OCallbacks []) s2)
    as (sc & s3 & E3 & S3 & I3 & L3 & D3). mstep E3.
  destruct (obj_or_spec (opt_fail_callbacks o) (OCallbacks []) s3)
    as (fc & s4 & E4 & S4 & I4 & L4 & D4). mstep E4.
  eexists _, s4. split; [reflexivity|]. simpl.
  assert (heap s ⊆ heap s2) by (by etrans).
  assert (heap s ⊆ heap s3) by (by etrans).
  assert (heap s2 ⊆ heap s4) by (by etrans).
  assert (heap s1 ⊆ heap s4) by (by etrans).
  split_and!; try congruence; try done.
  - by etrans.
  - unfold unit_defaults. simpl. split_and!; try done.
    + by eapply (defaulted_weaken s s s1 s4).
    + by eapply (defaulted_weaken s s1 s2 s4).
    + by eapply (defaulted_weaken s s2 s3 s4).
    + by eapply (defaulted_weaken s s3 s4 s4).
Qed.

(** A node made of the common part [u] and a child array. *)
Lemma node_new_spec (mk : IUnit → loc → Obj) p o dn dd children s :
  ∃ l s' u xs,
    (u ← init_unit p o dn dd;
     xs ← obj_or children (alloc (ONodes []));
     alloc (mk u xs)) s = Some (l, s')
    ∧ heap s ⊆ heap s' ∧ issued s' = issued s ∧ log s' = log s
    ∧ heap s !! l = None
    ∧ heap s' !! l = Some (mk u xs)
    ∧ path u = p
    ∧ unit_defaults s s' o dn dd u
    ∧ defaulted s s' children xs (ONodes []).
Proof.
  destruct (init_unit_spec p o dn dd s) as (u & s1 & E1 & S1 & I1 & L1 & P1 & D1).
  mstep E1.
  destruct (obj_or_spec children (ONodes []) s1)
    as (xs & s2 & E2 & S2 & I2 & L2 & D2). mstep E2.
  rewrite alloc_eq. eexists _, _, u, xs. split; [reflexivity|]. simpl.
  pose proof (alloc_subseteq (heap s2) (mk u xs)) as S3.
  assert (heap s ⊆ heap s2) as S02 by (by etrans).
  split_and!; try congruence; try done.
  - by etrans.
  - eapply lookup_weaken_None; [apply fresh_None|done].
  - apply lookup_insert_eq.
  - eapply (unit_defaults_weaken s s s1); [done| |done]. by etrans.
  - by eapply (defaulted_weaken s s1 s2).
Qed.

Lemma TestEngine_new_spec o webSites s :
  ∃ l s' u ws,
    TestEngine_new o webSites s = Some (l, s')
    ∧ heap s ⊆ heap s' ∧ issued s' = issued s ∧ log s' = log s
    ∧ heap s !! l = None
    ∧ heap s' !! l = Some (OTestEngine u ws)
    ∧ path u = ""
    ∧ unit_defaults s s' o "TestEngine" "TestEngine" u
    ∧ defaulted s s' webSites ws (ONodes []).
Proof. apply (node_new_spec OTestEngine). Qed.

Lemma WebSite_new_spec p o modules s :
  ∃ l s' u ms,
    WebSite_new p o modules s = Some (l, s')
    ∧ heap s ⊆ heap s' ∧ issued s' = issued s ∧ log s' = log s
    ∧ heap s !! l = None
    ∧ heap s' !! l = Some (OWebSite u ms)
    ∧ path u = p
    ∧ unit_defaults s s' o "" "" u
    ∧ defaulted s s' modules ms (ONodes []).
Proof. apply (node_new_spec OWebSite). Qed.

Lemma Module_new_spec p o apis s :
  ∃ l s' u xs,
    Module_new p o apis s = Some (l, s')
    ∧ heap s ⊆ heap s' ∧ issued s' = issued s ∧ log s' = log s
    ∧ heap s !! l = None
    ∧ heap s' !! l = Some (OModule u xs)
    ∧ path u = p
    ∧ unit_defaults s s' o "" "" u
    ∧ defaulted s s' apis xs (ONodes []).
Proof. apply (node_new_spec OModule). Qed.

Lemma Api_new_spec p method o verify data s :
  ∃ l s' u d,
    Api_new p method o verify data s = Some (l, s')
    ∧ heap s ⊆ heap s' ∧ issued s' = issued s ∧ log s' = log s
    ∧ heap s !! l = None
    ∧ heap s' !! l = Some (OApi u d method (default FnStatus200 verify))
    ∧ path u = p
    ∧ unit_defaults s s' o "" "" u
    ∧ data_defaulted s s' data d
    ∧ truthy d = true.
Proof.
  unfold Api_new, data_defaulted.
  destruct (init_unit_spec p o "" "" s) as (u & s1 & E1 & S1 & I1 & L1 & P1 & D1).
  mstep E1.
  destruct (truthy data) eqn:Hd.
  - rewrite ret_bind, alloc_eq.
    eexists _, _, u, data. split; [reflexivity|]. simpl.
    pose proof (alloc_subseteq (heap s1)
      (OApi u data method (default FnStatus200 verify))) as S2.
    split_and!; try congruence; try done.
    + by etrans.
    + eapply lookup_weaken_None; [apply fresh_None|done].
    + apply lookup_insert_eq.
    + by eapply (unit_defaults_weaken s s s1).
  - mstep (alloc_eq OPlain s1). rewrite ret_bind, alloc_eq.
    set (s2 := with_heap _ s1).
    eexists _, _, u, _. split; [reflexivity|]. simpl.
    pose proof (alloc_subseteq (heap s1) OPlain) as S2.
    pose proof (alloc_subseteq (heap s2)
      (OApi u (JObj (fresh (dom (heap s1)))) method
         (default FnStatus200 verify))) as S3.
    assert (heap s ⊆ heap s2) as S02 by (by etrans).
    split_and!; try congruence; try done.
    + by etrans.
    + eapply lookup_weaken_None; [apply fresh_None|done].
    + apply lookup_insert_eq.
    + eapply (unit_defaults_weaken s s s1); [done| |done]. by etrans.
    + eexists. split; [done|]. split.
      * eapply lookup_weaken_None; [apply fresh_None|done].
      * eapply lookup_weaken; [|exact S3]. apply lookup_insert_eq.
    + reflexivity.
Qed.

(** ** Paths of a well-formed tree *)

Lemma wf_engine_children h this webSite :
  wf_engine h this = true → webSite ∈ children h this →
  wf_webSite h webSite = true.
Proof.
  intros (_ & _ & _ & _ & _ & Hall)%wf_engine_inv Hin.
  by eapply Forall_forall in Hall.
Qed.

Lemma wf_webSite_children h webSite module :
  wf_webSite h webSite = true → module ∈ children h webSite →
  wf_module h module = true.
Proof.
  intros (_ & _ & _ & _ & _ & Hall)%wf_webSite_inv Hin.
  by eapply Forall_forall in Hall.
Qed.

Lemma wf_module_children h module api :
  wf_module h module = true → api ∈ children h module →
  wf_api h api = true.
Proof.
  intros (_ & _ & _ & _ & _ & Hall)%wf_module_inv Hin.
  by eapply Forall_forall in Hall.
Qed.

(** Every request of [dispatches] is the one of a path of the tree. *)
Lemma elem_of_dispatches h this p :
  p ∈ dispatches h this ↔
  ∃ webSite module api,
    webSite ∈ children h this ∧ module ∈ children h webSite
    ∧ api ∈ children h module ∧ p = pending_of h this webSite module api.
Proof.
  unfold dispatches. rewrite list_elem_of_bind. split.
  - intros (w & (m & (a & Hp & Ha)%list_elem_of_bind & Hm)%list_elem_of_bind & Hw).
    apply list_elem_of_singleton in Hp. eauto 10.
  - intros (w & m & a & Hw & Hm & Ha & ->).
    exists w. split; [|done]. apply list_elem_of_bind.
    exists m. split; [|done]. apply list_elem_of_bind.
    exists a. split; [|done]. by apply list_elem_of_singleton.
Qed.

Lemma fmap_list_bind {A B C} (f : B → C) (g : A → list B) (l : list A) :
  f <$> (l ≫= g) = l ≫= (λ x, f <$> g x).
Proof.
  induction l as [|x l IH]; [done|].
  by rewrite !bind_cons, fmap_app, IH.
Qed.

Lemma dispatches_paths h this :
  (λ p, (p_webSite p, p_module p, p_api p)) <$> dispatches h this = paths h this.
Proof.
  unfold dispatches, paths.
  rewrite fmap_list_bind. apply list_bind_ext; [intros w|done].
  rewrite fmap_list_bind. apply list_bind_ext; [intros m|done].
  rewrite fmap_list_bind. by apply list_bind_ext.
Qed.



Example example_well_formed : wf_engine (heap example_state) example_engine = true.
Proof. vm_compute. reflexivity. Qed.

(** * The specification, statement by statement *)

(** ** Requests *)

(** [start] on a well-formed tree succeeds and hands the client one
    request per path of the tree, in the order of the tree, each the one
    [pending_of] reads off the store [start] began with. *)
Lemma start_requests this s :
  wf_engine (heap s) this = true →
  ∃ s' new,
    start this s = Some (tt, s')
    ∧ issued s' = issued s ++ new
    ∧ (λ p, (p_webSite p, p_module p, p_api p)) <$> new = paths (heap s) this
    ∧ Forall (λ p, p = pending_of (heap s) this (p_webSite p) (p_module p)
                       (p_api p)) new.
Proof.
  intros Hwf. destruct (start_spec this s Hwf) as (s' & Hrun & _ & Hi & _).
  exists s', (dispatches (heap s) this). split_and!; try done.
  - apply dispatches_paths.
  - apply Forall_forall.
    by intros p (w & m & a & _ & _ & _ & ->)%elem_of_dispatches.
Qed.

(** No request of [start] carries a header, whatever the four levels
    hold: the accumulator of the header loop is never written. *)
Lemma start_drops_headers this s :
  wf_engine (heap s) this = true →
  ∃ s' new,
    start this s = Some (tt, s')
    ∧ issued s' = issued s ++ new
    ∧ (λ p, (p_webSite p, p_module p, p_api p)) <$> new = paths (heap s) this
    ∧ Forall (λ p, rq_headers (p_request p) = ∅) new.
Proof.
  intros Hwf.
  destruct (start_requests this s Hwf) as (s' & new & Hrun & Hi & Hp & Hall).
  exists s', new. split_and!; try done.
  eapply Forall_impl; [exact Hall|]. by intros p ->.
Qed.

(** C1, on the configuration above: the engine sets header [H] to [a] and
    the first endpoint sets it to [b]; the request issued for that
    endpoint has no header [H] at all, where the claim has [b]. *)
Theorem C1_headers_not_merged :
  headers_of (heap example_state) example_engine !! "H" = Some "a"
  ∧ headers_of (heap example_state) example_apiA !! "H" = Some "b"
  ∧ ∃ s' p rest,
      start example_engine example_state = Some (tt, s')
      ∧ issued s' = p :: rest
      ∧ p_api p = example_apiA
      ∧ rq_headers (p_request p) !! "H" = None
      ∧ rq_headers (p_request p) = ∅.
Proof.
  split; [vm_compute; reflexivity|]. split; [vm_compute; reflexivity|].
  eexists _, _, _. split; [vm_compute; reflexivity|].
  split_and!; vm_compute; reflexivity.
Qed.

(** C6: [start] hands the client one request per path of the tree, and
    the URL of each is the concatenation of the path fragments of the
    engine, the site, the module and the endpoint, in this order and with
    nothing in between; with the fragments "https://x", "/s", "" and "/e"
    it is "https://x/s/e". *)
Theorem C6_path_concatenation this s :
  wf_engine (heap s) this = true →
  ∃ s' new,
    start this s = Some (tt, s')
    ∧ issued s' = issued s ++ new
    ∧ (λ p, (p_webSite p, p_module p, p_api p)) <$> new = paths (heap s) this
    ∧ Forall (λ p,
        rq_url (p_request p)
        = path_of (heap s) this +:+ path_of (heap s) (p_webSite p)
          +:+ path_of (heap s) (p_module p) +:+ path_of (heap s) (p_api p)
        ∧ (path_of (heap s) this = "https://x" →
           path_of (heap s) (p_webSite p) = "/s" →
           path_of (heap s) (p_module p) = "" →
           path_of (heap s) (p_api p) = "/e" →
           rq_url (p_request p) = "https://x/s/e")) new.
Proof.
  intros Hwf.
  destruct (start_requests this s Hwf) as (s' & new & Hrun & Hi & Hp & Hall).
  exists s', new. split_and!; try done.
  eapply Forall_impl; [exact Hall|]. intros p ->. simpl.
  split; [done|]. by intros -> -> -> ->.
Qed.

Lemma C6_path_concatenation_witness :
  ∃ s' new,
    start example_engine example_state = Some (tt, s')
    ∧ issued s' = issued example_state ++ new
    ∧ (λ p, (p_webSite p, p_module p, p_api p)) <$> new
      = paths (heap example_state) example_engine
    ∧ Forall (λ p,
        rq_url (p_request p)
        = path_of (heap example_state) example_engine
          +:+ path_of (heap example_state) (p_webSite p)
          +:+ path_of (heap example_state) (p_module p)
          +:+ path_of (heap example_state) (p_api p)
        ∧ (path_of (heap example_state) example_engine = "https://x" →
           path_of (heap example_state) (p_webSite p) = "/s" →
           path_of (heap example_state) (p_module p) = "" →
           path_of (heap example_state) (p_api p) = "/e" →
           rq_url (p_request p) = "https://x/s/e")) new.
Proof.
  apply (C6_path_concatenation example_engine example_state).
  vm_compute. reflexivity.
Defined.

(** The example of C6, run: the requests of the configuration, whose
    first path has the fragments "https://x", "/s", "" and "/e". *)
Example example_url :
  (λ r, (λ p, rq_url (p_request p)) <$> issued r.2)
    <$> start example_engine example_state
  = Some ["https://x/s/e"; "https://x/t/v2/other"].
Proof. vm_compute. reflexivity. Qed.

Lemma merge_querys_lookup h this webSite module api k :
  merge_querys h ∅ [this; webSite; module; api] !! k
  = nearest (querys_of h api) (querys_of h module) (querys_of h webSite)
      (querys_of h this) k.
Proof.
  unfold merge_querys, nearest. simpl. rewrite !lookup_union, lookup_empty.
  by destruct (querys_of h api !! k), (querys_of h module !! k),
    (querys_of h webSite !! k), (querys_of h this !! k).
Qed.

(** C7: the query parameters of every request [start] issues are the
    query maps of the engine, the site, the module and the endpoint laid
    over the empty map in this order, a later level replacing the value
    an earlier one gave a key, so that each key has the value of the
    level nearest to the leaf that sets it; the body is the endpoint's. *)
Theorem C7_query_merge_and_body this s :
  wf_engine (heap s) this = true →
  ∃ s' new,
    start this s = Some (tt, s')
    ∧ issued s' = issued s ++ new
    ∧ (λ p, (p_webSite p, p_module p, p_api p)) <$> new = paths (heap s) this
    ∧ Forall (λ p,
        rq_params (p_request p)
        = querys_of (heap s) (p_api p)
          ∪ (querys_of (heap s) (p_module p)
             ∪ (querys_of (heap s) (p_webSite p)
                ∪ (querys_of (heap s) this ∪ ∅)))
        ∧ (∀ k, rq_params (p_request p) !! k
                = nearest (querys_of (heap s) (p_api p))
                    (querys_of (heap s) (p_module p))
                    (querys_of (heap s) (p_webSite p))
                    (querys_of (heap s) this) k)
        ∧ rq_data (p_request p) = data_of (heap s) (p_api p)) new.
Proof.
  intros Hwf.
  destruct (start_requests this s Hwf) as (s' & new & Hrun & Hi & Hp & Hall).
  exists s', new. split_and!; try done.
  eapply Forall_impl; [exact Hall|]. intros p ->. simpl.
  split_and!; try done. intros k. apply merge_querys_lookup.
Qed.

Lemma C7_query_merge_and_body_witness :
  ∃ s' new,
    start example_engine example_state = Some (tt, s')
    ∧ issued s' = issued example_state ++ new
    ∧ (λ p, (p_webSite p, p_module p, p_api p)) <$> new
      = paths (heap example_state) example_engine
    ∧ Forall (λ p,
        rq_params (p_request p)
        = querys_of (heap example_state) (p_api p)
          ∪ (querys_of (heap example_state) (p_module p)
             ∪ (querys_of (heap example_state) (p_webSite p)
                ∪ (querys_of (heap example_state) example_engine ∪ ∅)))
        ∧ (∀ k, rq_params (p_request p) !! k
                = nearest (querys_of (heap example_state) (p_api p))
                    (querys_of (heap example_state) (p_module p))
                    (querys_of (heap example_state) (p_webSite p))
                    (querys_of (heap example_state) example_engine) k)
        ∧ rq_data (p_request p) = data_of (heap example_state) (p_api p)) new.
Proof.
  apply (C7_query_merge_and_body example_engine example_state).
  vm_compute. reflexivity.
Defined.

(** On the configuration: [k] is set by the engine, the module and the
    endpoint of the first path and has the endpoint's value there; [m]
    and [r] come from the module and the engine. *)
Example example_params :
  (λ r, (λ p, let q := rq_params (p_request p) in (q !! "k", q !! "m", q !! "r"))
          <$> issued r.2)
    <$> start example_engine example_state
  = Some [(Some "leaf", Some "module", Some "root");
          (Some "root", None, Some "root")].
Proof. vm_compute. reflexivity. Qed.

(** ** [clone] *)

(** C3: [clone] on an endpoint returns a reference that was not in use,
    to an [Api] with the field values of the source: the same path,
    method, name, description, body, error handler and verify predicate
    and the same references to the header map, the query map and the two
    callback arrays.  It changes no object that was there.  Running the
    body of the loop of [start] on the endpoint, which works on such a
    clone and assigns its [headers], [path] and [querys], leaves every
    object that was there as it was, the endpoint and the collections it
    refers to among them. *)
Theorem C3_clone_is_shallow_and_isolated this s :
  wf_api (heap s) this = true →
  (∃ c s' u d m v,
      clone this s = Some (c, s')
      ∧ heap s !! c = None
      ∧ heap s !! this = Some (OApi u d m v)
      ∧ heap s' !! c = Some (OApi u d m v)
      ∧ (∀ l, l ≠ c → heap s' !! l = heap s !! l)
      ∧ issued s' = issued s ∧ log s' = log s)
  ∧ ∀ engine webSite module,
      wf_node (heap s) engine = true →
      wf_node (heap s) webSite = true →
      wf_node (heap s) module = true →
      ∃ s'', dispatch engine webSite module this s = Some (tt, s'')
             ∧ ∀ l o, heap s !! l = Some o → heap s'' !! l = Some o.
Proof.
  intros Hwf. split.
  - destruct (wf_api_inv _ _ Hwf) as (u & d & m & v & E & _ & Hd).
    eexists _, _, u, d, m, v. split; [by apply clone_eq|]. simpl.
    split_and!; try done.
    + apply fresh_None.
    + apply lookup_insert_eq.
    + intros l Hl. by apply lookup_insert_ne.
  - intros engine webSite module He Hs Hm.
    destruct (dispatch_spec engine webSite module this s He Hs Hm Hwf)
      as (s'' & Hrun & Hsub & _).
    exists s''. split; [done|]. intros l o Hl. by eapply lookup_weaken.
Qed.

Lemma C3_clone_is_shallow_and_isolated_witness :
  (∃ c s' u d m v,
      clone example_apiA example_state = Some (c, s')
      ∧ heap example_state !! c = None
      ∧ heap example_state !! example_apiA = Some (OApi u d m v)
      ∧ heap s' !! c = Some (OApi u d m v)
      ∧ (∀ l, l ≠ c → heap s' !! l = heap example_state !! l)
      ∧ issued s' = issued example_state ∧ log s' = log example_state)
  ∧ ∀ engine webSite module,
      wf_node (heap example_state) engine = true →
      wf_node (heap example_state) webSite = true →
      wf_node (heap example_state) module = true →
      ∃ s'', dispatch engine webSite module example_apiA example_state
             = Some (tt, s'')
             ∧ ∀ l o, heap example_state !! l = Some o → heap s'' !! l = Some o.
Proof.
  apply (C3_clone_is_shallow_and_isolated example_apiA example_state).
  vm_compute. reflexivity.
Defined.

(** The constructor and the add operations keep an endpoint in the shape
    C3 asks for: the body of a constructed [Api] is never falsy. *)
Lemma Api_new_well_formed p method o verify data s :
  (∀ l, opt_headers o = Some l → is_Some (headers_at (heap s) l)) →
  (∀ l, opt_querys o = Some l → is_Some (map_at (heap s) l)) →
  (∀ l, opt_success_callbacks o = Some l → is_Some (callbacks_at (heap s) l)) →
  (∀ l, opt_fail_callbacks o = Some l → is_Some (callbacks_at (heap s) l)) →
  ∃ l s', Api_new p method o verify data s = Some (l, s')
          ∧ wf_api (heap s') l = true.
Proof.
  intros Hh Hq Hs Hf.
  destruct (Api_new_spec p method o verify data s)
    as (l & s' & u & d & Hrun & Hsub & _ & _ & _ & El & _ & Hu & _ & Hd).
  exists l, s'. split; [done|]. unfold wf_api. rewrite El, Hd, andb_true_r.
  destruct Hu as (D1 & D2 & D3 & D4 & _). unfold wf_unit, defaulted in *.
  rewrite !andb_true_iff, !bool_decide_eq_true. split_and!.
  - destruct (opt_headers o) as [l0|].
    + subst. destruct (Hh _ eq_refl) as [x Hx].
      exists x. by eapply headers_at_weaken.
    + unfold headers_at. destruct D1 as [_ ->]. eauto.
  - destruct (opt_querys o) as [l0|].
    + subst. destruct (Hq _ eq_refl) as [x Hx].
      exists x. by eapply map_at_weaken.
    + unfold map_at. destruct D2 as [_ ->]. eauto.
  - destruct (opt_success_callbacks o) as [l0|].
    + subst. destruct (Hs _ eq_refl) as [x Hx].
      exists x. by eapply callbacks_at_weaken.
    + unfold callbacks_at. destruct D3 as [_ ->]. eauto.
  - destruct (opt_fail_callbacks o) as [l0|].
    + subst. destruct (Hf _ eq_refl) as [x Hx].
      exists x. by eapply callbacks_at_weaken.
    + unfold callbacks_at. destruct D4 as [_ ->]. eauto.
Qed.

(** ** Outcomes *)





(** The two cases of C5 on the configuration, whose first endpoint has
    the default [verify]: the calls made for status 200 and for 404. *)
Example example_status_200 :
  log <$> (snd <$> settle example_pending
                     (Fulfilled {| status := 200; rdata := JNull |})
                     example_state)
  = let r := {| status := 200; rdata := JNull |} in
    Some [EVerify example_apiA FnStatus200 r;
          ENotify example_apiA r; ECallback (quiet 1) r;
          ENotify example_modA r; ECallback (quiet 3) r;
          ENotify example_siteA r; ECallback (quiet 5) r;
          ENotify example_engine r; ECallback (quiet 7) r].
Proof. vm_compute. reflexivity. Qed.

Example example_status_404 :
  log <$> (snd <$> settle example_pending
                     (Fulfilled {| status := 404; rdata := JNull |})
                     example_state)
  = let r := {| status := 404; rdata := JNull |} in
    Some [EVerify example_apiA FnStatus200 r;
          EFail example_apiA r; ECallback (quiet 2) r;
          EFail example_modA r; ECallback (quiet 4) r;
          EFail example_siteA r; ECallback (quiet 6) r;
          EFail example_engine r; ECallback (quiet 8) r].
Proof. vm_compute. reflexivity. Qed.

(** ** Several requests *)




(** On the configuration: the first request is rejected and the second
    completes, in either order; the calls made for the second are the
    same, and so are those made for the first. *)
Example example_two_outcomes :
  let pA := example_pending in
  let pB := pending_of (heap example_state) example_engine example_siteB
              example_modB example_apiB in
  let r := {| status := 500; rdata := JNull |} in
  let e := JStr "timeout" in
  fanout (heap example_state) pA (Rejected e)
  = [EErrorCallback example_apiA FnNoop e; EErrorCallback example_modA FnNoop e;
     EErrorCallback example_siteA FnNoop e; EErrorCallback example_engine FnNoop e]
  ∧ fanout (heap example_state) pB (Fulfilled r)
    = [EVerify example_apiB (FnUser 9 (λ _, JBool true)) r;
       ENotify example_apiB r; ENotify example_modB r; ENotify example_siteB r;
       ENotify example_engine r; ECallback (quiet 7) r]
  ∧ log <$> (snd <$> complete [(pA, Rejected e); (pB, Fulfilled r)] example_state)
    = Some (fanout (heap example_state) pA (Rejected e)
            ++ fanout (heap example_state) pB (Fulfilled r))
  ∧ log <$> (snd <$> complete [(pB, Fulfilled r); (pA, Rejected e)] example_state)
    = Some (fanout (heap example_state) pB (Fulfilled r)
            ++ fanout (heap example_state) pA (Rejected e)).
Proof. vm_compute. split_and!; reflexivity. Qed.

(** ** The add operations *)







Lemma addHeader_eq this key value u hs s :
  unit_at (heap s) this = Some u →
  headers_at (heap s) (headers u) = Some hs →
  addHeader this key value s
  = Some (tt, with_heap (<[headers u := OHeaders (<[key := value]> hs)]> (heap s)) s).
Proof.
  intros Hu Hh. unfold addHeader. mstep (read_unit_eq _ _ _ Hu).
  by apply AxiosHeaders_set_eq.
Qed.

Lemma addQuery_eq this key value u q s :
  unit_at (heap s) this = Some u →
  map_at (heap s) (querys u) = Some q →
  addQuery this key value s
  = Some (tt, with_heap (<[querys u := OMap (<[key := value]> q)]> (heap s)) s).
Proof.
  intros Hu Hq. unfold addQuery. mstep (read_unit_eq _ _ _ Hu).
  by apply Map_set_eq.
Qed.

Lemma addSuccessCallback_eq this callback u fs s :
  unit_at (heap s) this = Some u →
  callbacks_at (heap s) (success_callbacks u) = Some fs →
  addSuccessCallback this callback s
  = Some (tt, with_heap (<[success_callbacks u := OCallbacks (fs ++ [callback])]>
                           (heap s)) s).
Proof.
  intros Hu Hf. unfold addSuccessCallback. mstep (read_unit_eq _ _ _ Hu).
  by mstep (read_callbacks_eq _ _ _ Hf).
Qed.

Lemma addFailCallback_eq this callback u fs s :
  unit_at (heap s) this = Some u →
  callbacks_at (heap s) (fail_callbacks u) = Some fs →
  addFailCallback this callback s
  = Some (tt, with_heap (<[fail_callbacks u := OCallbacks (fs ++ [callback])]>
                           (heap s)) s).
Proof.
  intros Hu Hf. unfold addFailCallback. mstep (read_unit_eq _ _ _ Hu).
  by mstep (read_callbacks_eq _ _ _ Hf).
Qed.




(** On the configuration, whose engine already has the success callback
    [quiet 7]: adding it again makes a second occurrence. *)
Example example_no_deduplication :
  (addSuccessCallback example_engine (quiet 7) example_state
   ≫= λ r, Some (success_of (heap r.2) example_engine))
  = Some [quiet 7; quiet 7].
Proof. vm_compute. reflexivity. Qed.

(** ** The constructors *)

(** C2, as the code has it: the constructors of [WebSite], [Module] and
    [Api] take the path given (and [Api] the method given); the
    constructor of [TestEngine] takes no path and sets the field to the
    empty string.  Every optional property that is left out gets its
    default: a new empty header set, query map, callback array or child
    array, the no-op error handler, the status-200 verify, the default
    name and description, and [{}] for a body that is left out or falsy.
    No constructor fails. *)
Theorem C2_constructors_and_defaults p method o children verify data s :
  (∃ l s' u ws,
      TestEngine_new o children s = Some (l, s')
      ∧ heap s' !! l = Some (OTestEngine u ws)
      ∧ path u = ""
      ∧ unit_defaults s s' o "TestEngine" "TestEngine" u
      ∧ defaulted s s' children ws (ONodes []))
  ∧ (∃ l s' u ms,
      WebSite_new p o children s = Some (l, s')
      ∧ heap s' !! l = Some (OWebSite u ms)
      ∧ path u = p
      ∧ unit_defaults s s' o "" "" u
      ∧ defaulted s s' children ms (ONodes []))
  ∧ (∃ l s' u xs,
      Module_new p o children s = Some (l, s')
      ∧ heap s' !! l = Some (OModule u xs)
      ∧ path u = p
      ∧ unit_defaults s s' o "" "" u
      ∧ defaulted s s' children xs (ONodes []))
  ∧ (∃ l s' u d,
      Api_new p method o verify data s = Some (l, s')
      ∧ heap s' !! l = Some (OApi u d method (default FnStatus200 verify))
      ∧ path u = p
      ∧ unit_defaults s s' o "" "" u
      ∧ data_defaulted s s' data d).
Proof.
  split_and!.
  - destruct (TestEngine_new_spec o children s)
      as (l & s' & u & ws & ? & _ & _ & _ & _ & ? & ? & ? & ?).
    by exists l, s', u, ws.
  - destruct (WebSite_new_spec p o children s)
      as (l & s' & u & ws & ? & _ & _ & _ & _ & ? & ? & ? & ?).
    by exists l, s', u, ws.
  - destruct (Module_new_spec p o children s)
      as (l & s' & u & ws & ? & _ & _ & _ & _ & ? & ? & ? & ?).
    by exists l, s', u, ws.
  - destruct (Api_new_spec p method o verify data s)
      as (l & s' & u & d & ? & _ & _ & _ & _ & ? & ? & ? & ? & _).
    by exists l, s', u, d.
Qed.

(** C2 as stated fails for the engine: its constructor has no [path]
    option, so no configuration makes an engine whose path is
    "https://x". *)
Lemma C2_engine_takes_no_path :
  ¬ ∃ o webSites s l s' u ws,
      TestEngine_new o webSites s = Some (l, s')
      ∧ heap s' !! l = Some (OTestEngine u ws)
      ∧ path u = "https://x".
Proof.
  intros (o & webSites & s & l & s' & u & ws & Hrun & El & Hp).
  destruct (TestEngine_new_spec o webSites s)
    as (l0 & s0 & u0 & ws0 & Hrun0 & _ & _ & _ & _ & El0 & Hp0 & _).
  rewrite Hrun in Hrun0. simplify_eq. by rewrite Hp0 in Hp.
Qed.

(** With every option left out. *)
Example example_defaults :
  (Api_new "/e" GET no_options None JUndefined initial
   ≫= λ r, Some (r.1, (λ l, heap r.2 !! l) <$> [1; 2; 3; 4; 5; 6; 7]%positive))
  = Some (6%positive,
          [Some (OHeaders ∅); Some (OMap ∅);
           Some (OCallbacks []); Some (OCallbacks []);
           Some OPlain;
           Some (OApi {| name := ""; description := ""; path := "/e";
                         headers := 1; querys := 2;
                         success_callbacks := 3; fail_callbacks := 4;
                         error_callback := FnNoop |}
                   (JObj 5) GET FnStatus200);
           None]).
Proof. vm_compute. reflexivity. Qed.

(** * Further properties of the code *)

(** ** Stores of the same shape *)

Lemma skeleton_eq_inv o o' :
  skeleton o = skeleton o' →
  o = o'
  ∨ (∃ a b, o = OHeaders a ∧ o' = OHeaders b)
  ∨ (∃ a b, o = OMap a ∧ o' = OMap b)
  ∨ (∃ a b, o = OCallbacks a ∧ o' = OCallbacks b).
Proof. destruct o, o'; simpl; intros E; simplify_eq; eauto 10. Qed.

Lemma forallb_ext {A} (f g : A → bool) xs :
  (∀ x, f x = g x) → forallb f xs = forallb g xs.
Proof. intros E. induction xs as [|x xs IH]; simpl; [done|]. by rewrite E, IH. Qed.

Lemma same_shape_refl h : same_shape h h.
Proof. by intros l. Qed.

Lemma same_shape_trans h1 h2 h3 :
  same_shape h1 h2 → same_shape h2 h3 → same_shape h1 h3.
Proof. intros H12 H23 l. by rewrite H12. Qed.

(** Replacing a collection by one of its class keeps the shape. *)
Lemma same_shape_insert (h : Heap) l o o' :
  h !! l = Some o → skeleton o = skeleton o' → same_shape h (<[l := o']> h).
Proof.
  intros El Hsk x. destruct (decide (l = x)) as [<-|Hne].
  - rewrite lookup_insert_eq, El. simpl. by rewrite Hsk.
  - by rewrite lookup_insert_ne.
Qed.

Section Shape.
Context (h h' : Heap) (Hsh : same_shape h h').

Lemma same_shape_lookup l :
  match h !! l, h' !! l with
  | Some o, Some o' => skeleton o = skeleton o'
  | None, None => True
  | _, _ => False
  end.
Proof.
  specialize (Hsh l). destruct (h !! l), (h' !! l); simpl in *; by simplify_eq.
Qed.

Lemma same_shape_unit_at l : unit_at h' l = unit_at h l.
Proof.
  pose proof (same_shape_lookup l) as Hl. unfold unit_at.
  destruct (h !! l) as [o|], (h' !! l) as [o'|]; try done. simpl.
  apply skeleton_eq_inv in Hl as [->|[(?&?&->&->)|[(?&?&->&->)|(?&?&->&->)]]];
    done.
Qed.

Lemma same_shape_nodes_at l : nodes_at h' l = nodes_at h l.
Proof.
  pose proof (same_shape_lookup l) as Hl. unfold nodes_at.
  destruct (h !! l) as [o|], (h' !! l) as [o'|]; try done.
  apply skeleton_eq_inv in Hl as [->|[(?&?&->&->)|[(?&?&->&->)|(?&?&->&->)]]];
    done.
Qed.

Lemma same_shape_is_headers l : is_headers h' l = is_headers h l.
Proof.
  pose proof (same_shape_lookup l) as Hl. unfold is_headers, headers_at.
  destruct (h !! l) as [o|], (h' !! l) as [o'|]; try done.
  apply skeleton_eq_inv in Hl as [->|[(?&?&->&->)|[(?&?&->&->)|(?&?&->&->)]]];
    try done; apply bool_decide_ext; split; eauto.
Qed.

Lemma same_shape_is_map l : is_map h' l = is_map h l.
Proof.
  pose proof (same_shape_lookup l) as Hl. unfold is_map, map_at.
  destruct (h !! l) as [o|], (h' !! l) as [o'|]; try done.
  apply skeleton_eq_inv in Hl as [->|[(?&?&->&->)|[(?&?&->&->)|(?&?&->&->)]]];
    try done; apply bool_decide_ext; split; eauto.
Qed.

Lemma same_shape_is_callbacks l : is_callbacks h' l = is_callbacks h l.
Proof.
  pose proof (same_shape_lookup l) as Hl. unfold is_callbacks, callbacks_at.
  destruct (h !! l) as [o|], (h' !! l) as [o'|]; try done.
  apply skeleton_eq_inv in Hl as [->|[(?&?&->&->)|[(?&?&->&->)|(?&?&->&->)]]];
    try done; apply bool_decide_ext; split; eauto.
Qed.

Lemma same_shape_wf_unit u : wf_unit h' u = wf_unit h u.
Proof.
  unfold wf_unit.
  change (is_headers h' (headers u) && is_map h' (querys u)
          && is_callbacks h' (success_callbacks u)
          && is_callbacks h' (fail_callbacks u)
          = is_headers h (headers u) && is_map h (querys u)
            && is_callbacks h (success_callbacks u)
            && is_callbacks h (fail_callbacks u)).
  by rewrite same_shape_is_headers, same_shape_is_map, !same_shape_is_callbacks.
Qed.




Lemma same_shape_children l : children h' l = children h l.
Proof.
  pose proof (same_shape_lookup l) as Hl. unfold children.
  destruct (h !! l) as [o|], (h' !! l) as [o'|]; try done.
  apply skeleton_eq_inv in Hl as [->|[(?&?&->&->)|[(?&?&->&->)|(?&?&->&->)]]];
    try done.
  destruct o'; try done; by rewrite same_shape_nodes_at.
Qed.

Lemma same_shape_paths this : paths h' this = paths h this.
Proof.
  unfold paths. rewrite same_shape_children.
  apply list_bind_ext; [intros w|done]. rewrite same_shape_children.
  apply list_bind_ext; [intros m|done]. by rewrite same_shape_children.
Qed.


Lemma same_shape_wf_api l : wf_api h' l = wf_api h l.
Proof.
  pose proof (same_shape_lookup l) as Hl. unfold wf_api.
  destruct (h !! l) as [o|], (h' !! l) as [o'|]; try done.
  apply skeleton_eq_inv in Hl as [->|[(?&?&->&->)|[(?&?&->&->)|(?&?&->&->)]]];
    try done.
  destruct o'; try done. by rewrite same_shape_wf_unit.
Qed.

Lemma same_shape_wf_module l : wf_module h' l = wf_module h l.
Proof.
  pose proof (same_shape_lookup l) as Hl. unfold wf_module.
  destruct (h !! l) as [o|], (h' !! l) as [o'|]; try done.
  apply skeleton_eq_inv in Hl as [->|[(?&?&->&->)|[(?&?&->&->)|(?&?&->&->)]]];
    try done.
  destruct o'; try done. rewrite same_shape_wf_unit, same_shape_nodes_at.
  f_equal. destruct (nodes_at h apis); [|done].
  apply forallb_ext. intros a. apply same_shape_wf_api.
Qed.

Lemma same_shape_wf_webSite l : wf_webSite h' l = wf_webSite h l.
Proof.
  pose proof (same_shape_lookup l) as Hl. unfold wf_webSite.
  destruct (h !! l) as [o|], (h' !! l) as [o'|]; try done.
  apply skeleton_eq_inv in Hl as [->|[(?&?&->&->)|[(?&?&->&->)|(?&?&->&->)]]];
    try done.
  destruct o'; try done. rewrite same_shape_wf_unit, same_shape_nodes_at.
  f_equal. destruct (nodes_at h modules); [|done].
  apply forallb_ext. intros a. apply same_shape_wf_module.
Qed.

Lemma same_shape_wf_engine l : wf_engine h' l = wf_engine h l.
Proof.
  pose proof (same_shape_lookup l) as Hl. unfold wf_engine.
  destruct (h !! l) as [o|], (h' !! l) as [o'|]; try done.
  apply skeleton_eq_inv in Hl as [->|[(?&?&->&->)|[(?&?&->&->)|(?&?&->&->)]]];
    try done.
  destruct o'; try done. rewrite same_shape_wf_unit, same_shape_nodes_at.
  f_equal. destruct (nodes_at h webSites); [|done].
  apply forallb_ext. intros a. apply same_shape_wf_webSite.
Qed.


End Shape.

(** ** The add operations on a well-formed node *)

Lemma addHeader_run n K v s :
  wf_node (heap s) n = true →
  ∃ u hs, unit_at (heap s) n = Some u
          ∧ headers_at (heap s) (headers u) = Some hs
          ∧ addHeader n K v s
            = Some (tt, with_heap (<[headers u := OHeaders (<[K := v]> hs)]>
                                     (heap s)) s).
Proof.
  intros (u & Hu & ([hs Hh] & _)%wf_unit_inv)%wf_node_inv.
  exists u, hs. split_and!; try done. by apply addHeader_eq.
Qed.

Lemma addQuery_run n K v s :
  wf_node (heap s) n = true →
  ∃ u q, unit_at (heap s) n = Some u
         ∧ map_at (heap s) (querys u) = Some q
         ∧ addQuery n K v s
           = Some (tt, with_heap (<[querys u := OMap (<[K := v]> q)]> (heap s)) s).
Proof.
  intros (u & Hu & (_ & [q Hq] & _)%wf_unit_inv)%wf_node_inv.
  exists u, q. split_and!; try done. by apply addQuery_eq.
Qed.

Lemma addSuccessCallback_run n cb s :
  wf_node (heap s) n = true →
  ∃ u fs, unit_at (heap s) n = Some u
          ∧ callbacks_at (heap s) (success_callbacks u) = Some fs
          ∧ addSuccessCallback n cb s
            = Some (tt, with_heap (<[success_callbacks u := OCallbacks (fs ++ [cb])]>
                                     (heap s)) s).
Proof.
  intros (u & Hu & (_ & _ & [fs Hf] & _)%wf_unit_inv)%wf_node_inv.
  exists u, fs. split_and!; try done. by apply addSuccessCallback_eq.
Qed.

Lemma addFailCallback_run n cb s :
  wf_node (heap s) n = true →
  ∃ u fs, unit_at (heap s) n = Some u
          ∧ callbacks_at (heap s) (fail_callbacks u) = Some fs
          ∧ addFailCallback n cb s
            = Some (tt, with_heap (<[fail_callbacks u := OCallbacks (fs ++ [cb])]>
                                     (heap s)) s).
Proof.
  intros (u & Hu & (_ & _ & _ & [fs Hf])%wf_unit_inv)%wf_node_inv.
  exists u, fs. split_and!; try done. by apply addFailCallback_eq.
Qed.

Lemma headers_at_lookup h l hs : headers_at h l = Some hs → h !! l = Some (OHeaders hs).
Proof. unfold headers_at. destruct (h !! l) as [[]|]; naive_solver. Qed.

Lemma map_at_lookup h l m : map_at h l = Some m → h !! l = Some (OMap m).
Proof. unfold map_at. destruct (h !! l) as [[]|]; naive_solver. Qed.

Lemma callbacks_at_lookup h l fs :
  callbacks_at h l = Some fs → h !! l = Some (OCallbacks fs).
Proof. unfold callbacks_at. destruct (h !! l) as [[]|]; naive_solver. Qed.




(** A write of an object that is no header map, over one that is none,
    changes no header map; likewise for query maps and callback
    arrays. *)
Lemma headers_at_insert_other (h : Heap) l o' x :
  headers_at h l = None → (∀ hs, o' ≠ OHeaders hs) →
  headers_at (<[l := o']> h) x = headers_at h x.
Proof.
  unfold headers_at. intros Hl Ho.
  destruct (decide (l = x)) as [<-|Hne].
  - rewrite lookup_insert_eq, Hl. destruct o'; try done. by destruct (Ho hs).
  - by rewrite lookup_insert_ne.
Qed.

Lemma map_at_insert_other (h : Heap) l o' x :
  map_at h l = None → (∀ m, o' ≠ OMap m) →
  map_at (<[l := o']> h) x = map_at h x.
Proof.
  unfold map_at. intros Hl Ho.
  destruct (decide (l = x)) as [<-|Hne].
  - rewrite lookup_insert_eq, Hl. destruct o'; try done. by destruct (Ho m).
  - by rewrite lookup_insert_ne.
Qed.

Lemma callbacks_at_insert_other (h : Heap) l o' x :
  callbacks_at h l = None → (∀ fs, o' ≠ OCallbacks fs) →
  callbacks_at (<[l := o']> h) x = callbacks_at h x.
Proof.
  unfold callbacks_at. intros Hl Ho.
  destruct (decide (l = x)) as [<-|Hne].
  - rewrite lookup_insert_eq, Hl. destruct o'; try done. by destruct (Ho fs).
  - by rewrite lookup_insert_ne.
Qed.

Lemma class_of_headers h l hs :
  headers_at h l = Some hs → map_at h l = None ∧ callbacks_at h l = None.
Proof.
  intros E%headers_at_lookup. unfold map_at, callbacks_at. by rewrite E.
Qed.

Lemma class_of_map h l m :
  map_at h l = Some m → headers_at h l = None ∧ callbacks_at h l = None.
Proof.
  intros E%map_at_lookup. unfold headers_at, callbacks_at. by rewrite E.
Qed.

Lemma class_of_callbacks h l fs :
  callbacks_at h l = Some fs → headers_at h l = None ∧ map_at h l = None.
Proof.
  intros E%callbacks_at_lookup. unfold headers_at, map_at. by rewrite E.
Qed.

(** X13: an add operation writes into one kind of collection only.
    After [addHeader] every node has the query map and the callback
    arrays it had; after [addQuery] the header map and the callback
    arrays; after [addSuccessCallback] or [addFailCallback] the header
    map and the query map. *)
Theorem X13_add_operations_frame n K v cb s :
  wf_node (heap s) n = true →
  (∃ s', addHeader n K v s = Some (tt, s')
         ∧ ∀ x, querys_of (heap s') x = querys_of (heap s) x
                ∧ success_of (heap s') x = success_of (heap s) x
                ∧ fail_of (heap s') x = fail_of (heap s) x)
  ∧ (∃ s', addQuery n K v s = Some (tt, s')
           ∧ ∀ x, headers_of (heap s') x = headers_of (heap s) x
                  ∧ success_of (heap s') x = success_of (heap s) x
                  ∧ fail_of (heap s') x = fail_of (heap s) x)
  ∧ (∃ s', addSuccessCallback n cb s = Some (tt, s')
           ∧ ∀ x, headers_of (heap s') x = headers_of (heap s) x
                  ∧ querys_of (heap s') x = querys_of (heap s) x)
  ∧ (∃ s', addFailCallback n cb s = Some (tt, s')
           ∧ ∀ x, headers_of (heap s') x = headers_of (heap s) x
                  ∧ querys_of (heap s') x = querys_of (heap s) x).
Proof.
  intros Hwf. split_and!.
  - destruct (addHeader_run n K v s Hwf) as (u & hs & _ & Hh & Hrun).
    eexists. split; [exact Hrun|]. simpl. intros x.
    destruct (class_of_headers _ _ _ Hh) as [Hm Hc].
    assert (same_shape (heap s)
              (<[headers u := OHeaders (<[K := v]> hs)]> (heap s))) as Hsh
      by (eapply same_shape_insert; [by apply headers_at_lookup|done]).
    unfold querys_of, success_of, fail_of.
    rewrite (same_shape_unit_at _ _ Hsh). destruct (unit_at (heap s) x); [|done].
    simpl. by rewrite map_at_insert_other, !callbacks_at_insert_other.
  - destruct (addQuery_run n K v s Hwf) as (u & q & _ & Hq & Hrun).
    eexists. split; [exact Hrun|]. simpl. intros x.
    destruct (class_of_map _ _ _ Hq) as [Hh Hc].
    assert (same_shape (heap s)
              (<[querys u := OMap (<[K := v]> q)]> (heap s))) as Hsh
      by (eapply same_shape_insert; [by apply map_at_lookup|done]).
    unfold headers_of, success_of, fail_of.
    rewrite (same_shape_unit_at _ _ Hsh). destruct (unit_at (heap s) x); [|done].
    simpl. by rewrite headers_at_insert_other, !callbacks_at_insert_other.
  - destruct (addSuccessCallback_run n cb s Hwf) as (u & fs & _ & Hf & Hrun).
    eexists. split; [exact Hrun|]. simpl. intros x.
    destruct (class_of_callbacks _ _ _ Hf) as [Hh Hm].
    assert (same_shape (heap s)
              (<[success_callbacks u := OCallbacks (fs ++ [cb])]> (heap s))) as Hsh
      by (eapply same_shape_insert; [by apply callbacks_at_lookup|done]).
    unfold headers_of, querys_of.
    rewrite (same_shape_unit_at _ _ Hsh). destruct (unit_at (heap s) x); [|done].
    simpl. by rewrite headers_at_insert_other, map_at_insert_other.
  - destruct (addFailCallback_run n cb s Hwf) as (u & fs & _ & Hf & Hrun).
    eexists. split; [exact Hrun|]. simpl. intros x.
    destruct (class_of_callbacks _ _ _ Hf) as [Hh Hm].
    assert (same_shape (heap s)
              (<[fail_callbacks u := OCallbacks (fs ++ [cb])]> (heap s))) as Hsh
      by (eapply same_shape_insert; [by apply callbacks_at_lookup|done]).
    unfold headers_of, querys_of.
    rewrite (same_shape_unit_at _ _ Hsh). destruct (unit_at (heap s) x); [|done].
    simpl. by rewrite headers_at_insert_other, map_at_insert_other.
Qed.

Lemma X13_add_operations_frame_witness :
  (∃ s', addHeader example_apiA "K" "v" example_state = Some (tt, s')
         ∧ ∀ x, querys_of (heap s') x = querys_of (heap example_state) x
                ∧ success_of (heap s') x = success_of (heap example_state) x
                ∧ fail_of (heap s') x = fail_of (heap example_state) x)
  ∧ (∃ s', addQuery example_apiA "K" "v" example_state = Some (tt, s')
           ∧ ∀ x, headers_of (heap s') x = headers_of (heap example_state) x
                  ∧ success_of (heap s') x = success_of (heap example_state) x
                  ∧ fail_of (heap s') x = fail_of (heap example_state) x)
  ∧ (∃ s', addSuccessCallback example_apiA (quiet 0) example_state = Some (tt, s')
           ∧ ∀ x, headers_of (heap s') x = headers_of (heap example_state) x
                  ∧ querys_of (heap s') x = querys_of (heap example_state) x)
  ∧ (∃ s', addFailCallback example_apiA (quiet 0) example_state = Some (tt, s')
           ∧ ∀ x, headers_of (heap s') x = headers_of (heap example_state) x
                  ∧ querys_of (heap s') x = querys_of (heap example_state) x).
Proof.
  apply (X13_add_operations_frame example_apiA "K" "v" (quiet 0) example_state).
  vm_compute. reflexivity.
Defined.

(** ** Attaching children *)

Lemma nodes_at_lookup h l ns : nodes_at h l = Some ns → h !! l = Some (ONodes ns).
Proof. unfold nodes_at. destruct (h !! l) as [[]|]; naive_solver. Qed.

Lemma push_nodes_eq arr xs : ∀ ns s,
  nodes_at (heap s) arr = Some ns →
  push_nodes arr xs s
  = Some (tt, with_heap (<[arr := ONodes (ns ++ xs)]> (heap s)) s).
Proof.
  unfold push_nodes. induction xs as [|x xs IH]; intros ns s Hns.
  - simpl. rewrite app_nil_r, insert_id by (by apply nodes_at_lookup).
    by destruct s.
  - simpl. mstep (read_nodes_eq _ _ _ Hns).
    rewrite (bind_eq _ _ _ _ _ (write_eq arr (ONodes (ns ++ [x])) s)).
    rewrite (IH (ns ++ [x])); simpl.
    + by rewrite insert_insert_eq, <- app_assoc.
    + unfold nodes_at. by rewrite lookup_insert_eq.
Qed.

(** The children of a node whose child array [arr] is replaced. *)
Lemma children_insert (h : Heap) l arr ns ns' :
  is_Some (unit_at h l) → nodes_at h arr = Some ns →
  match h !! l with
  | Some (OTestEngine _ xs) | Some (OWebSite _ xs) | Some (OModule _ xs) => xs = arr
  | _ => False
  end →
  children (<[arr := ONodes ns']> h) l = ns'.
Proof.
  intros [u Hu] Hns Hl. unfold children.
  assert (l ≠ arr) as Hne.
  { intros ->. unfold unit_at in Hu. apply nodes_at_lookup in Hns.
    by rewrite Hns in Hu. }
  rewrite lookup_insert_ne by done.
  destruct (h !! l) as [[]|]; try done; subst;
    unfold nodes_at; by rewrite lookup_insert_eq.
Qed.

(** X1: [addWebSites], [addModules] and [addApis] put the nodes given at
    the end of the child array of their receiver, in the order given and
    after the children it had; with an empty array the children stay as
    they are.  They issue nothing and call nothing. *)
Theorem X1_children_are_appended e w m xs ys zs s :
  wf_engine (heap s) e = true →
  wf_webSite (heap s) w = true →
  wf_module (heap s) m = true →
  (∃ s', addWebSites e xs s = Some (tt, s')
         ∧ children (heap s') e = children (heap s) e ++ xs
         ∧ issued s' = issued s ∧ log s' = log s)
  ∧ (∃ s', addModules w ys s = Some (tt, s')
           ∧ children (heap s') w = children (heap s) w ++ ys
           ∧ issued s' = issued s ∧ log s' = log s)
  ∧ (∃ s', addApis m zs s = Some (tt, s')
           ∧ children (heap s') m = children (heap s) m ++ zs
           ∧ issued s' = issued s ∧ log s' = log s).
Proof.
  intros He Hw Hm. split_and!.
  - destruct (wf_engine_inv _ _ He) as (u & arr & El & _ & Hns & _).
    unfold addWebSites, read_engine. mstep (read_eq _ _ _ El).
    rewrite ret_bind. simpl. rewrite (push_nodes_eq _ _ _ _ Hns).
    eexists. split; [done|]. simpl. split_and!; try done.
    eapply children_insert; try done.
    + unfold unit_at. rewrite El. by eexists.
    + by rewrite El.
  - destruct (wf_webSite_inv _ _ Hw) as (u & arr & El & _ & Hns & _).
    unfold addModules, read_site. mstep (read_eq _ _ _ El).
    rewrite ret_bind. simpl. rewrite (push_nodes_eq _ _ _ _ Hns).
    eexists. split; [done|]. simpl. split_and!; try done.
    eapply children_insert; try done.
    + unfold unit_at. rewrite El. by eexists.
    + by rewrite El.
  - destruct (wf_module_inv _ _ Hm) as (u & arr & El & _ & Hns & _).
    unfold addApis, read_module. mstep (read_eq _ _ _ El).
    rewrite ret_bind. simpl. rewrite (push_nodes_eq _ _ _ _ Hns).
    eexists. split; [done|]. simpl. split_and!; try done.
    eapply children_insert; try done.
    + unfold unit_at. rewrite El. by eexists.
    + by rewrite El.
Qed.

Lemma X1_children_are_appended_witness :
  (∃ s', addWebSites example_engine [example_siteB; example_siteA] example_state
         = Some (tt, s')
         ∧ children (heap s') example_engine
           = children (heap example_state) example_engine
             ++ [example_siteB; example_siteA]
         ∧ issued s' = issued example_state ∧ log s' = log example_state)
  ∧ (∃ s', addModules example_siteA [] example_state = Some (tt, s')
           ∧ children (heap s') example_siteA
             = children (heap example_state) example_siteA ++ []
           ∧ issued s' = issued example_state ∧ log s' = log example_state)
  ∧ (∃ s', addApis example_modA [example_apiB] example_state = Some (tt, s')
           ∧ children (heap s') example_modA
             = children (heap example_state) example_modA ++ [example_apiB]
           ∧ issued s' = issued example_state ∧ log s' = log example_state).
Proof.
  apply (X1_children_are_appended example_engine example_siteA example_modA
           [example_siteB; example_siteA] [] [example_apiB] example_state);
    vm_compute; reflexivity.
Defined.

(** ** Callbacks *)












(** ** Collections shared and not shared *)









(** ** Trees that stay well formed *)

Lemma Forall_forallb {A} (p : A → bool) xs :
  Forall (λ x, p x = true) xs → forallb p xs = true.
Proof. induction 1 as [|x xs Hx _ IH]; simpl; [done|]. by rewrite Hx, IH. Qed.

Lemma wf_module_weaken (h h' : Heap) l :
  h ⊆ h' → wf_module h l = true → wf_module h' l = true.
Proof.
  intros Hsub (u & xs & E & Hu & Hns & Hall)%wf_module_inv. unfold wf_module.
  rewrite (lookup_weaken _ _ _ _ E Hsub), (wf_unit_weaken _ _ _ Hsub Hu),
    (nodes_at_weaken _ _ Hsub _ _ Hns). simpl.
  apply Forall_forallb. eapply Forall_impl; [exact Hall|].
  intros a. by apply wf_api_weaken.
Qed.

Lemma wf_webSite_weaken (h h' : Heap) l :
  h ⊆ h' → wf_webSite h l = true → wf_webSite h' l = true.
Proof.
  intros Hsub (u & xs & E & Hu & Hns & Hall)%wf_webSite_inv. unfold wf_webSite.
  rewrite (lookup_weaken _ _ _ _ E Hsub), (wf_unit_weaken _ _ _ Hsub Hu),
    (nodes_at_weaken _ _ Hsub _ _ Hns). simpl.
  apply Forall_forallb. eapply Forall_impl; [exact Hall|].
  intros a. by apply wf_module_weaken.
Qed.

Lemma wf_engine_weaken (h h' : Heap) l :
  h ⊆ h' → wf_engine h l = true → wf_engine h' l = true.
Proof.
  intros Hsub (u & xs & E & Hu & Hns & Hall)%wf_engine_inv. unfold wf_engine.
  rewrite (lookup_weaken _ _ _ _ E Hsub), (wf_unit_weaken _ _ _ Hsub Hu),
    (nodes_at_weaken _ _ Hsub _ _ Hns). simpl.
  apply Forall_forallb. eapply Forall_impl; [exact Hall|].
  intros a. by apply wf_webSite_weaken.
Qed.

(** The collections of a constructed node are there: those the
    configuration passed, which were, and those the constructor made. *)
Lemma wf_unit_of_defaults s s' o dn dd u :
  heap s ⊆ heap s' →
  wf_options (heap s) o = true →
  unit_defaults s s' o dn dd u →
  wf_unit (heap s') u = true.
Proof.
  intros Hsub Ho (D1 & D2 & D3 & D4 & _).
  unfold wf_options, opt_ok, is_headers, is_map, is_callbacks in Ho.
  rewrite !andb_true_iff in Ho. destruct Ho as [[[O1 O2] O3] O4].
  unfold wf_unit, defaulted in *.
  rewrite !andb_true_iff, !bool_decide_eq_true. split_and!.
  - destruct (opt_headers o) as [l0|].
    + subst. apply bool_decide_eq_true in O1 as [x Hx].
      exists x. by eapply headers_at_weaken.
    + unfold headers_at. destruct D1 as [_ ->]. eauto.
  - destruct (opt_querys o) as [l0|].
    + subst. apply bool_decide_eq_true in O2 as [x Hx].
      exists x. by eapply map_at_weaken.
    + unfold map_at. destruct D2 as [_ ->]. eauto.
  - destruct (opt_success_callbacks o) as [l0|].
    + subst. apply bool_decide_eq_true in O3 as [x Hx].
      exists x. by eapply callbacks_at_weaken.
    + unfold callbacks_at. destruct D3 as [_ ->]. eauto.
  - destruct (opt_fail_callbacks o) as [l0|].
    + subst. apply bool_decide_eq_true in O4 as [x Hx].
      exists x. by eapply callbacks_at_weaken.
    + unfold callbacks_at. destruct D4 as [_ ->]. eauto.
Qed.

(** The child array of a constructed node holds well-formed children. *)
Lemma wf_children_of_defaulted (wf : Heap → loc → bool) s s' ch xs :
  (∀ l, wf (heap s) l = true → wf (heap s') l = true) →
  heap s ⊆ heap s' →
  wf_children wf (heap s) ch = true →
  defaulted s s' ch xs (ONodes []) →
  match nodes_at (heap s') xs with
  | Some ns => forallb (wf (heap s')) ns
  | None => false
  end = true.
Proof.
  intros Hmono Hsub Hch Hd. unfold wf_children, defaulted in *.
  destruct ch as [l0|].
  - subst. destruct (nodes_at (heap s) l0) as [ns|] eqn:En; [|done].
    rewrite (nodes_at_weaken _ _ Hsub _ _ En).
    apply Forall_forallb. apply forallb_Forall in Hch.
    eapply Forall_impl; [exact Hch|]. done.
  - unfold nodes_at. by destruct Hd as [_ ->].
Qed.

(** X12: the constructors make well-formed nodes.  Given a configuration
    whose collections are there and a child array of well-formed
    children, or none, each constructor returns a node that is well
    formed with all below it, so that a tree assembled with the
    constructors is one [start] runs on. *)
Theorem X12_constructors_make_well_formed_nodes
    p method o webSites modules apis verify data s :
  wf_options (heap s) o = true →
  wf_children wf_webSite (heap s) webSites = true →
  wf_children wf_module (heap s) modules = true →
  wf_children wf_api (heap s) apis = true →
  (∃ l s', TestEngine_new o webSites s = Some (l, s')
           ∧ wf_engine (heap s') l = true)
  ∧ (∃ l s', WebSite_new p o modules s = Some (l, s')
             ∧ wf_webSite (heap s') l = true)
  ∧ (∃ l s', Module_new p o apis s = Some (l, s')
             ∧ wf_module (heap s') l = true)
  ∧ (∃ l s', Api_new p method o verify data s = Some (l, s')
             ∧ wf_api (heap s') l = true).
Proof.
  intros Ho Hw Hm Ha. split_and!.
  - destruct (TestEngine_new_spec o webSites s)
      as (l & s' & u & xs & R & Hsub & _ & _ & _ & El & _ & Du & Dc).
    exists l, s'. split; [done|]. unfold wf_engine.
    rewrite El, (wf_unit_of_defaults _ _ _ _ _ _ Hsub Ho Du). simpl.
    apply (wf_children_of_defaulted wf_webSite s s' webSites xs);
      [intros x; by apply wf_webSite_weaken|done..].
  - destruct (WebSite_new_spec p o modules s)
      as (l & s' & u & xs & R & Hsub & _ & _ & _ & El & _ & Du & Dc).
    exists l, s'. split; [done|]. unfold wf_webSite.
    rewrite El, (wf_unit_of_defaults _ _ _ _ _ _ Hsub Ho Du). simpl.
    apply (wf_children_of_defaulted wf_module s s' modules xs);
      [intros x; by apply wf_module_weaken|done..].
  - destruct (Module_new_spec p o apis s)
      as (l & s' & u & xs & R & Hsub & _ & _ & _ & El & _ & Du & Dc).
    exists l, s'. split; [done|]. unfold wf_module.
    rewrite El, (wf_unit_of_defaults _ _ _ _ _ _ Hsub Ho Du). simpl.
    apply (wf_children_of_defaulted wf_api s s' apis xs);
      [intros x; by apply wf_api_weaken|done..].
  - destruct (Api_new_spec p method o verify data s)
      as (l & s' & u & d & R & Hsub & _ & _ & _ & El & _ & Du & _ & Hd).
    exists l, s'. split; [done|]. unfold wf_api.
    by rewrite El, (wf_unit_of_defaults _ _ _ _ _ _ Hsub Ho Du), Hd.
Qed.

Lemma X12_constructors_make_well_formed_nodes_witness :
  (∃ l s', TestEngine_new shared_options None shared_state = Some (l, s')
           ∧ wf_engine (heap s') l = true)
  ∧ (∃ l s', WebSite_new "/s" shared_options None shared_state = Some (l, s')
             ∧ wf_webSite (heap s') l = true)
  ∧ (∃ l s', Module_new "/s" shared_options None shared_state = Some (l, s')
             ∧ wf_module (heap s') l = true)
  ∧ (∃ l s', Api_new "/s" PUT shared_options None (JNum 0) shared_state
             = Some (l, s')
             ∧ wf_api (heap s') l = true).
Proof.
  apply (X12_constructors_make_well_formed_nodes "/s" PUT shared_options
           None None None None (JNum 0) shared_state);
    vm_compute; reflexivity.
Defined.

(** ** Running [start] *)

Lemma children_weaken_engine (h h' : Heap) l :
  h ⊆ h' → wf_engine h l = true → children h' l = children h l.
Proof.
  intros Hsub (u & xs & E & _ & Hns & _)%wf_engine_inv. unfold children at 1.
  by rewrite (lookup_weaken _ _ _ _ E Hsub), (nodes_at_weaken _ _ Hsub _ _ Hns).
Qed.

Lemma children_weaken_webSite (h h' : Heap) l :
  h ⊆ h' → wf_webSite h l = true → children h' l = children h l.
Proof.
  intros Hsub (u & xs & E & _ & Hns & _)%wf_webSite_inv. unfold children at 1.
  by rewrite (lookup_weaken _ _ _ _ E Hsub), (nodes_at_weaken _ _ Hsub _ _ Hns).
Qed.

Lemma children_weaken_module (h h' : Heap) l :
  h ⊆ h' → wf_module h l = true → children h' l = children h l.
Proof.
  intros Hsub (u & xs & E & _ & Hns & _)%wf_module_inv. unfold children at 1.
  by rewrite (lookup_weaken _ _ _ _ E Hsub), (nodes_at_weaken _ _ Hsub _ _ Hns).
Qed.

(** The requests of a well-formed tree, read off a larger store, are the
    same requests. *)
Lemma dispatches_weaken (h h' : Heap) this :
  h ⊆ h' → wf_engine h this = true → dispatches h' this = dispatches h this.
Proof.
  intros Hsub He. unfold dispatches.
  rewrite (children_weaken_engine _ _ _ Hsub He).
  apply Forall_bind_ext, Forall_forall. intros w Hw.
  pose proof (wf_engine_children _ _ _ He Hw) as Hw'.
  rewrite (children_weaken_webSite _ _ _ Hsub Hw').
  apply Forall_bind_ext, Forall_forall. intros m Hm.
  pose proof (wf_webSite_children _ _ _ Hw' Hm) as Hm'.
  rewrite (children_weaken_module _ _ _ Hsub Hm').
  apply Forall_bind_ext, Forall_forall. intros a Ha.
  pose proof (wf_module_children _ _ _ Hm' Ha) as Ha'.
  f_equal. apply pending_of_weaken; try done.
  - by apply wf_engine_node.
  - by apply wf_webSite_node.
  - by apply wf_module_node.
Qed.

(** X8: [start] can be run again.  It leaves the tree as it found it, so
    a second run succeeds and hands the client the same requests, in the
    same order, once more. *)
Theorem X8_start_can_be_repeated this s :
  wf_engine (heap s) this = true →
  ∃ s1 s2 new,
    start this s = Some (tt, s1)
    ∧ issued s1 = issued s ++ new
    ∧ wf_engine (heap s1) this = true
    ∧ start this s1 = Some (tt, s2)
    ∧ issued s2 = issued s ++ new ++ new.
Proof.
  intros Hwf.
  destruct (start_spec this s Hwf) as (s1 & R1 & S1 & I1 & _).
  pose proof (wf_engine_weaken _ _ _ S1 Hwf) as Hwf1.
  destruct (start_spec this s1 Hwf1) as (s2 & R2 & _ & I2 & _).
  exists s1, s2, (dispatches (heap s) this). split_and!; try done.
  by rewrite I2, I1, (dispatches_weaken _ _ _ S1 Hwf), <- app_assoc.
Qed.

Lemma X8_start_can_be_repeated_witness :
  ∃ s1 s2 new,
    start example_engine example_state = Some (tt, s1)
    ∧ issued s1 = issued example_state ++ new
    ∧ wf_engine (heap s1) example_engine = true
    ∧ start example_engine s1 = Some (tt, s2)
    ∧ issued s2 = issued example_state ++ new ++ new.
Proof.
  apply (X8_start_can_be_repeated example_engine example_state).
  vm_compute. reflexivity.
Defined.

(** X9: [start] itself calls no [verify], no [notify] or [fail], no
    callback and no error callback: these are called only by the
    handlers, when a request ends.  It changes no object that was in the
    store, so that every node keeps its headers, query parameters,
    callbacks, path and children. *)
Theorem X9_start_calls_nothing_and_keeps_the_tree this s :
  wf_engine (heap s) this = true →
  ∃ s', start this s = Some (tt, s')
        ∧ log s' = log s
        ∧ (∀ l o, heap s !! l = Some o → heap s' !! l = Some o)
        ∧ paths (heap s') this = paths (heap s) this.
Proof.
  intros Hwf.
  destruct (start_spec this s Hwf) as (s' & R & Hsub & _ & Hl).
  exists s'. split_and!; try done.
  - intros l o El. by eapply lookup_weaken.
  - by rewrite <- !dispatches_paths, (dispatches_weaken _ _ _ Hsub Hwf).
Qed.

Lemma X9_start_calls_nothing_and_keeps_the_tree_witness :
  ∃ s', start example_engine example_state = Some (tt, s')
        ∧ log s' = log example_state
        ∧ (∀ l o, heap example_state !! l = Some o → heap s' !! l = Some o)
        ∧ paths (heap s') example_engine = paths (heap example_state) example_engine.
Proof.
  apply (X9_start_calls_nothing_and_keeps_the_tree example_engine example_state).
  vm_compute. reflexivity.
Defined.

(** X10: [start] issues as many requests as the tree has paths, none for
    a site without modules or a module without endpoints.  Each request
    has the HTTP method of its endpoint, and its handlers hold the engine
    [start] was called on together with the site, the module and the
    endpoint of the path. *)
Theorem X10_one_request_per_path_with_its_method this s :
  wf_engine (heap s) this = true →
  ∃ s' new,
    start this s = Some (tt, s')
    ∧ issued s' = issued s ++ new
    ∧ length new = length (paths (heap s) this)
    ∧ (paths (heap s) this = [] → issued s' = issued s)
    ∧ Forall (λ p,
        rq_method (p_request p) = method_of (heap s) (p_api p)
        ∧ p_engine p = this
        ∧ p_webSite p ∈ children (heap s) this
        ∧ p_module p ∈ children (heap s) (p_webSite p)
        ∧ p_api p ∈ children (heap s) (p_module p)) new.
Proof.
  intros Hwf.
  destruct (start_spec this s Hwf) as (s' & R & _ & Hi & _).
  exists s', (dispatches (heap s) this). split_and!; try done.
  - by rewrite <- dispatches_paths, length_fmap.
  - intros Hp. rewrite Hi. rewrite <- dispatches_paths in Hp.
    apply fmap_nil_inv in Hp. by rewrite Hp, app_nil_r.
  - apply Forall_forall.
    by intros p (w & m & a & Hw & Hm & Ha & ->)%elem_of_dispatches.
Qed.

Lemma X10_one_request_per_path_with_its_method_witness :
  ∃ s' new,
    start example_engine example_state = Some (tt, s')
    ∧ issued s' = issued example_state ++ new
    ∧ length new = length (paths (heap example_state) example_engine)
    ∧ (paths (heap example_state) example_engine = [] →
       issued s' = issued example_state)
    ∧ Forall (λ p,
        rq_method (p_request p) = method_of (heap example_state) (p_api p)
        ∧ p_engine p = example_engine
        ∧ p_webSite p ∈ children (heap example_state) example_engine
        ∧ p_module p ∈ children (heap example_state) (p_webSite p)
        ∧ p_api p ∈ children (heap example_state) (p_module p)) new.
Proof.
  apply (X10_one_request_per_path_with_its_method example_engine example_state).
  vm_compute. reflexivity.
Defined.


(** X15: a query parameter added to an endpoint is in the next request
    for that endpoint with the value given, whatever the module, the site
    and the engine set for the same key. *)
Theorem X15_added_query_reaches_the_request this a K v s :
  wf_engine (heap s) this = true →
  wf_node (heap s) a = true →
  ∃ s1 s2 new,
    addQuery a K v s = Some (tt, s1)
    ∧ start this s1 = Some (tt, s2)
    ∧ issued s2 = issued s ++ new
    ∧ (λ p, (p_webSite p, p_module p, p_api p)) <$> new = paths (heap s) this
    ∧ Forall (λ p, p_api p = a → rq_params (p_request p) !! K = Some v) new.
Proof.
  intros He Ha.
  destruct (addQuery_run a K v s Ha) as (u & q & Hu & Hq & R1).
  set (s1 := with_heap _ s) in R1.
  assert (same_shape (heap s) (heap s1)) as Hsh
    by (eapply same_shape_insert; [by apply map_at_lookup|done]).
  assert (wf_engine (heap s1) this = true) as He1
    by (by rewrite (same_shape_wf_engine _ _ Hsh)).
  destruct (start_requests this s1 He1) as (s2 & new & R2 & I2 & P2 & Hall).
  exists s1, s2, new. split_and!; try done.
  - by rewrite P2, (same_shape_paths _ _ Hsh).
  - eapply Forall_impl; [exact Hall|]. intros p Ep Hp. rewrite Ep.
    cbn [p_request pending_of rq_params request_of].
    rewrite merge_querys_lookup, Hp. unfold nearest, querys_of at 1.
    rewrite (same_shape_unit_at _ _ Hsh), Hu. simpl.
    rewrite map_at_insert. simpl. by rewrite lookup_insert_eq.
Qed.

Lemma X15_added_query_reaches_the_request_witness :
  ∃ s1 s2 new,
    addQuery example_apiA "k" "newest" example_state = Some (tt, s1)
    ∧ start example_engine s1 = Some (tt, s2)
    ∧ issued s2 = issued example_state ++ new
    ∧ (λ p, (p_webSite p, p_module p, p_api p)) <$> new
      = paths (heap example_state) example_engine
    ∧ Forall (λ p, p_api p = example_apiA →
                   rq_params (p_request p) !! "k" = Some "newest") new.
Proof.
  apply (X15_added_query_reaches_the_request example_engine example_apiA
           "k" "newest" example_state);
    vm_compute; reflexivity.
Defined.
